(** * servicelogger: a shallow embedding of the file logger and its properties

    The repository holds two revisions of the package: [servicelogger.go]
    (methods [Log*] have value receivers) and a later revision kept as
    [unnamed/part_000] (pointer receivers, [logRotate] also returns the
    writer).  Functions whose text is the same in both revisions are
    embedded once at top level; the functions that differ live in the
    modules [ServiceLogger] and [Part000].

    Conventions of the embedding:
    - Go's [int], [int64] and [LogLevel] are [Z]; arithmetic that can
      overflow goes through [wrap64].
    - Go strings are byte strings, here [string] (a list of [ascii]).
    - A Go pair [(value, err)] is a pair whose second component is an
      [option error], [None] standing for [nil].
    - The process state (file system, standard streams) is a [World];
      effectful code lives in the monad [M], whose results record normal
      return, [os.Exit], a run-time panic, or exhausted recursion fuel.
    - [logRotate] and the logging methods call each other; they are defined
      by recursion on a fuel argument, and the statements about them hold for
      every fuel from 3 (or 4) up.
    - Lemmas about [servicelogger.go] carry the prefix [SL_], lemmas about
      [unnamed/part_000] the prefix [P_]. *)

From Stdlib Require Import ZArith String Ascii Lia Permutation.
From stdpp Require Import gmap strings list pretty.

Open Scope Z_scope.

(* ===================================================================== *)
(** * Go runtime model *)
(* ===================================================================== *)

(** ** Machine integers *)

Definition MinInt64 : Z := - 2 ^ 63.
Definition MaxInt64 : Z := 2 ^ 63 - 1.
Definition MaxUint64 : Z := 2 ^ 64 - 1.

(** Two's complement wrap-around of a 64-bit signed integer. *)
Definition wrap64 (z : Z) : Z := (z + 2 ^ 63) mod 2 ^ 64 - 2 ^ 63.

Definition in_int64 (z : Z) : Prop := MinInt64 <= z <= MaxInt64.

Definition int_add (a b : Z) : Z := wrap64 (a + b).
Definition int_sub (a b : Z) : Z := wrap64 (a - b).
Definition int_mul (a b : Z) : Z := wrap64 (a * b).

(** ** Strings *)

Definition newline : string := String (ascii_of_nat 10) EmptyString.
Definition dquote : string := String (ascii_of_nat 34) EmptyString.

(** [strings.HasPrefix]: [len(s) >= len(prefix) && s[:len(prefix)] == prefix]. *)
Definition HasPrefix (s pfx : string) : bool :=
  (String.length pfx <=? String.length s)%nat
  && String.eqb (substring 0 (String.length pfx) s) pfx.

(** [strings.HasSuffix]: [len(s) >= len(suffix) && s[len(s)-len(suffix):] == suffix]. *)
Definition HasSuffix (s sfx : string) : bool :=
  (String.length sfx <=? String.length s)%nat
  && String.eqb
       (substring (String.length s - String.length sfx) (String.length sfx) s) sfx.

(** [fmt.Sprintf] of the verb [%d]. *)
Definition itoa (z : Z) : string := pretty z.

Definition hex_digit (n : nat) : ascii :=
  match get n "0123456789abcdef" with Some c => c | None => "0"%char end.

(** One byte of [strconv.Quote].  Exact on ASCII; bytes from 0x80 up are
    copied, which is what Go does for the printable runes they encode. *)
Definition quote_byte (c : ascii) : string :=
  let n := nat_of_ascii c in
  if (n =? 34)%nat then "\" +:+ dquote
  else if (n =? 92)%nat then "\\"
  else if (n =? 7)%nat then "\a"
  else if (n =? 8)%nat then "\b"
  else if (n =? 12)%nat then "\f"
  else if (n =? 10)%nat then "\n"
  else if (n =? 13)%nat then "\r"
  else if (n =? 9)%nat then "\t"
  else if (n =? 11)%nat then "\v"
  else if (n <? 32)%nat || (n =? 127)%nat then
    "\x" +:+ String (hex_digit (n / 16)) (String (hex_digit (n mod 16)) EmptyString)
  else String c EmptyString.

Fixpoint quote_bytes (s : string) : string :=
  match s with
  | EmptyString => EmptyString
  | String c s' => quote_byte c +:+ quote_bytes s'
  end.

Definition Quote (s : string) : string := dquote +:+ quote_bytes s +:+ dquote.

(** ** Errors *)

Inductive errKind := ErrSyntax | ErrRange.

(** The error values this package can see: [errors.New], the [fs.PathError]
    and [os.LinkError] of a missing file, and [strconv.NumError]. *)
Inductive error :=
| errors_New (text : string)
| PathError (op path : string)
| LinkError (op old new : string)
| NumError (fn num : string) (k : errKind).

Definition enoent : string := "no such file or directory".

(** The method [Error()] of these values. *)
Definition Error (e : error) : string :=
  match e with
  | errors_New text => text
  | PathError op path => op +:+ " " +:+ path +:+ ": " +:+ enoent
  | LinkError op old new => op +:+ " " +:+ old +:+ " " +:+ new +:+ ": " +:+ enoent
  | NumError fn num k =>
      "strconv." +:+ fn +:+ ": parsing " +:+ Quote num +:+ ": "
      +:+ match k with ErrSyntax => "invalid syntax" | ErrRange => "value out of range" end
  end.

(** ** [strconv.Atoi] *)

Definition is_digit (c : ascii) : bool :=
  (48 <=? nat_of_ascii c)%nat && (nat_of_ascii c <=? 57)%nat.

Definition digit_val (c : ascii) : Z := Z.of_nat (nat_of_ascii c) - 48.

(** The scanning loop of [strconv.ParseUint] in base 10 with 64 bits: a byte
    that is not a digit is a syntax error, a value above [MaxUint64] a range
    error, whichever the scan meets first. *)
Fixpoint ParseUint_loop (s : string) (n : Z) : Z * option errKind :=
  match s with
  | EmptyString => (n, None)
  | String c s' =>
      if is_digit c then
        let n1 := n * 10 + digit_val c in
        if MaxUint64 <? n1 then (MaxUint64, Some ErrRange) else ParseUint_loop s' n1
      else (0, Some ErrSyntax)
  end.

Definition ParseUint (s : string) : Z * option errKind :=
  match s with
  | EmptyString => (0, Some ErrSyntax)
  | _ => ParseUint_loop s 0
  end.

(** [strconv.Atoi(s)], that is [ParseInt(s, 10, 0)] on a 64-bit platform
    with the function name of the error set to [Atoi]. *)
Definition Atoi (s : string) : Z * option error :=
  match s with
  | EmptyString => (0, Some (NumError "Atoi" s ErrSyntax))
  | String c rest =>
      let neg := Ascii.eqb c "-" in
      let body := if Ascii.eqb c "+" || Ascii.eqb c "-" then rest else s in
      match ParseUint body with
      | (_, Some ErrSyntax) => (0, Some (NumError "Atoi" s ErrSyntax))
      | (un, _) =>
          if negb neg && (2 ^ 63 <=? un) then (MaxInt64, Some (NumError "Atoi" s ErrRange))
          else if neg && (2 ^ 63 <? un) then (MinInt64, Some (NumError "Atoi" s ErrRange))
          else (if neg then - un else un, None)
      end
  end.

(** ** The world: file system and standard streams *)

(** A file: the chunks written to it, oldest first (its bytes are their
    concatenation), and its permission bits. *)
Record inode := mkInode { data : list string; perm : Z }.

(** An open file (an [os.File]): the file it refers to and its open flags.  It
    keeps referring to the same file when a path is renamed or removed. *)
Record File := mkFile { fd_ino : nat; fd_flag : Z }.

Record World := mkWorld {
  names : gmap string nat;     (* directory entries: path to file number *)
  inodes : list inode;         (* files, by number *)
  stdout : list string;        (* chunks written to standard output *)
  stderr : list string         (* chunks written to standard error *)
}.

Definition O_WRONLY : Z := 1.
Definition O_CREATE : Z := 64.
Definition O_APPEND : Z := 1024.

(** The empty path names no file (ENOENT), whatever the directory holds. *)
Definition resolve (w : World) (p : string) : option nat :=
  if decide (p = EmptyString) then None else names w !! p.

(** The file a directory entry refers to (an entry always has its file; the
    default only makes the lookup total). *)
Definition file_at (w : World) (i : nat) : inode := default (mkInode [] 0) (inodes w !! i).

Definition file_bytes (f : inode) : string := foldr append EmptyString (data f).

Definition file_size (f : inode) : Z :=
  Z.of_nat (String.length (file_bytes f)).

(** ** The monad of effectful code *)

Inductive Res (A : Type) :=
| Ret (a : A) (w : World)       (* normal return *)
| Exit (code : Z) (w : World)   (* os.Exit *)
| Panic (w : World)             (* run-time panic: nil dereference, index out of range *)
| OutOfFuel.                    (* the recursion bound of the embedding *)
Arguments Ret {A} a w.
Arguments Exit {A} code w.
Arguments Panic {A} w.
Arguments OutOfFuel {A}.

Definition M (A : Type) : Type := World → Res A.

Definition ret {A} (a : A) : M A := fun w => Ret a w.

Definition bind {A B} (m : M A) (k : A → M B) : M B :=
  fun w =>
    match m w with
    | Ret a w' => k a w'
    | Exit c w' => Exit c w'
    | Panic w' => Panic w'
    | OutOfFuel => OutOfFuel
    end.

Notation "'let*' x ':=' m 'in' k" := (bind m (fun x => k))
  (at level 10, x pattern, m at level 100, k at level 200).
Notation "m ;; k" := (bind m (fun _ => k))
  (at level 100, k at level 200, right associativity).

Definition os_Exit {A} (code : Z) : M A := fun w => Exit code w.
Definition out_of_fuel {A} : M A := fun _ => OutOfFuel.
Definition panic {A} : M A := fun w => Panic w.

(** ** Package os *)

(** [os.Stat]: the size of the file, or the error of a missing path. *)
Definition os_Stat (name : string) : M (Z * option error) :=
  fun w =>
    match resolve w name with
    | Some i => Ret (file_size (file_at w i), None) w
    | None => Ret (0, Some (PathError "stat" name)) w
    end.

(** [os.Remove]: drops the directory entry; open files keep the content. *)
Definition os_Remove (name : string) : M (option error) :=
  fun w =>
    match resolve w name with
    | Some _ =>
        Ret None (mkWorld (delete name (names w)) (inodes w) (stdout w) (stderr w))
    | None => Ret (Some (PathError "remove" name)) w
    end.

(** [os.Rename]: moves the directory entry, replacing the target's. *)
Definition os_Rename (old new : string) : M (option error) :=
  fun w =>
    match resolve w old with
    | Some i =>
        if decide (new = EmptyString) then Ret (Some (LinkError "rename" old new)) w
        else Ret None (mkWorld (<[new := i]> (delete old (names w)))
                               (inodes w) (stdout w) (stderr w))
    | None => Ret (Some (LinkError "rename" old new)) w
    end.

(** [os.OpenFile]: opens an existing file, or creates an empty one with the
    given permission bits when [O_CREATE] is among the flags. *)
Definition os_OpenFile (name : string) (flag : Z) (pm : Z) : M (option File * option error) :=
  fun w =>
    match resolve w name with
    | Some i => Ret (Some (mkFile i flag), None) w
    | None =>
        if decide (name = EmptyString) then Ret (None, Some (PathError "open" name)) w
        else if Z.testbit flag 6 then
          let i := length (inodes w) in
          Ret (Some (mkFile i flag), None)
              (mkWorld (<[name := i]> (names w)) (inodes w ++ [mkInode [] pm])
                       (stdout w) (stderr w))
        else Ret (None, Some (PathError "open" name)) w
    end.

(** [os.ReadFile]. *)
Definition os_ReadFile (name : string) : M (string * option error) :=
  fun w =>
    match resolve w name with
    | Some i => Ret (file_bytes (file_at w i), None) w
    | None => Ret (EmptyString, Some (PathError "open" name)) w
    end.

(** [Write] of an [os.File] on a file opened with [O_APPEND]. *)
Definition File_Write (f : File) (chunk : string) : M unit :=
  fun w =>
    Ret tt (mkWorld (names w)
                    (alter (fun n => mkInode (data n ++ [chunk]) (perm n)) (fd_ino f) (inodes w))
                    (stdout w) (stderr w)).

(** [Close] of an [os.File]: the table of open files is not part of the world. *)
Definition File_Close (f : option File) : M unit := ret tt.

(** ** Packages fmt and log *)

Definition fmt_Println (s : string) : M unit :=
  fun w => Ret tt (mkWorld (names w) (inodes w) (stdout w ++ [s +:+ newline]) (stderr w)).

Definition fmt_Printf (s : string) : M unit :=
  fun w => Ret tt (mkWorld (names w) (inodes w) (stdout w ++ [s]) (stderr w)).

(** The header [log.Ldate|log.Ltime|log.Lmicroseconds] puts before a line:
    27 bytes.  The clock is outside the model; the reference layout stands
    for every reading of it. *)
Definition log_header : string := "2006/01/02 15:04:05.000000 ".

Definition ends_with_newline (s : string) : bool :=
  match get (String.length s - 1) s with
  | Some c => Ascii.eqb c (ascii_of_nat 10)
  | None => false
  end.

(** [Output] of a [log.Logger]: header, text, and a newline unless the text ends
    in one, in a single write.  A nil logger is a nil dereference. *)
Definition Logger_Output (b : option File) (s : string) : M unit :=
  match b with
  | None => panic
  | Some f =>
      File_Write f (log_header +:+ s +:+ (if ends_with_newline s then EmptyString else newline))
  end.

Definition Logger_Println (b : option File) (s : string) : M unit :=
  Logger_Output b (s +:+ newline).

Definition Logger_Printf (b : option File) (s : string) : M unit :=
  Logger_Output b s.

(** [log.New(file, prefix, flags)] with the empty prefix and the flags above. *)
Definition log_New (f : option File) : option File := f.

(** [log.Fatal]: the standard logger (flags [log.LstdFlags]) writes the line
    to standard error, then the process exits with status 1. *)
Definition log_std_header : string := "2006/01/02 15:04:05 ".

Definition log_Fatal {A} (s : string) : M A :=
  fun w =>
    Exit 1 (mkWorld (names w) (inodes w) (stdout w)
                    (stderr w ++ [log_std_header +:+ s +:+ newline])).

(* ===================================================================== *)
(** * Data model (the same in both revisions) *)
(* ===================================================================== *)

(** [type LogLevel int] with its six declared constants. *)
Definition LogLevel : Type := Z.

Definition LL_TRACE : LogLevel := 1.
Definition LL_DEBUG : LogLevel := 2.
Definition LL_INFO : LogLevel := 3.
Definition LL_WARN : LogLevel := 4.
Definition LL_ERROR : LogLevel := 5.
Definition LL_FATAL : LogLevel := 6.

Record FacilityFilter := mkFacilityFilter {
  filter : string;
  level : LogLevel
}.

Record FacilityFilters := mkFacilityFilters {
  count : Z;
  filters : list FacilityFilter
}.

(** [base] is the [log.Logger] writing to [filehandle]; both are pointers in
    the source and may be nil.  The field [filters] of the source is
    [Logger_filters] here, the name being taken by [FacilityFilters]. *)
Record Logger := mkLogger {
  base : option File;
  prefix : string;
  MinLoglevel : LogLevel;
  filename : string;
  rotate : bool;
  rotatesize : Z;
  keep : Z;
  filehandle : option File;
  rotation_running : bool;
  Logger_filters : FacilityFilters
}.

(** The zero value of the struct. *)
Definition Logger_zero : Logger :=
  mkLogger None EmptyString 0 EmptyString false 0 0 None false (mkFacilityFilters 0 []).

(** Field assignments. *)
Definition set_base (l : Logger) (v : option File) : Logger :=
  mkLogger v (prefix l) (MinLoglevel l) (filename l) (rotate l) (rotatesize l)
           (keep l) (filehandle l) (rotation_running l) (Logger_filters l).
Definition set_prefix (l : Logger) (v : string) : Logger :=
  mkLogger (base l) v (MinLoglevel l) (filename l) (rotate l) (rotatesize l)
           (keep l) (filehandle l) (rotation_running l) (Logger_filters l).
Definition set_MinLoglevel (l : Logger) (v : LogLevel) : Logger :=
  mkLogger (base l) (prefix l) v (filename l) (rotate l) (rotatesize l)
           (keep l) (filehandle l) (rotation_running l) (Logger_filters l).
Definition set_filename (l : Logger) (v : string) : Logger :=
  mkLogger (base l) (prefix l) (MinLoglevel l) v (rotate l) (rotatesize l)
           (keep l) (filehandle l) (rotation_running l) (Logger_filters l).
Definition set_rotate (l : Logger) (v : bool) : Logger :=
  mkLogger (base l) (prefix l) (MinLoglevel l) (filename l) v (rotatesize l)
           (keep l) (filehandle l) (rotation_running l) (Logger_filters l).
Definition set_rotatesize (l : Logger) (v : Z) : Logger :=
  mkLogger (base l) (prefix l) (MinLoglevel l) (filename l) (rotate l) v
           (keep l) (filehandle l) (rotation_running l) (Logger_filters l).
Definition set_keep (l : Logger) (v : Z) : Logger :=
  mkLogger (base l) (prefix l) (MinLoglevel l) (filename l) (rotate l) (rotatesize l)
           v (filehandle l) (rotation_running l) (Logger_filters l).
Definition set_filehandle (l : Logger) (v : option File) : Logger :=
  mkLogger (base l) (prefix l) (MinLoglevel l) (filename l) (rotate l) (rotatesize l)
           (keep l) v (rotation_running l) (Logger_filters l).
Definition set_rotation_running (l : Logger) (v : bool) : Logger :=
  mkLogger (base l) (prefix l) (MinLoglevel l) (filename l) (rotate l) (rotatesize l)
           (keep l) (filehandle l) v (Logger_filters l).
Definition set_filters (l : Logger) (v : FacilityFilters) : Logger :=
  mkLogger (base l) (prefix l) (MinLoglevel l) (filename l) (rotate l) (rotatesize l)
           (keep l) (filehandle l) (rotation_running l) v.

(** The flags and permission bits of every [os.OpenFile] in the package:
    [os.O_APPEND|os.O_CREATE|os.O_WRONLY] and [0640]. *)
Definition open_flags : Z := Z.lor (Z.lor O_APPEND O_CREATE) O_WRONLY.
Definition open_perm : Z := 6 * 64 + 4 * 8 + 0.

(** The name of a numbered generation: [fmt.Sprintf("%s.%d", name, i)]. *)
Definition generation (name : string) (i : Z) : string := name +:+ "." +:+ itoa i.

(** The facility of a call: [fmt.Sprintf("%s.%s.%s", l.prefix, source, function)]. *)
Definition facility_of (l : Logger) (source function : string) : string :=
  prefix l +:+ "." +:+ source +:+ "." +:+ function.

(** The text of a line: [fmt.Sprintf(tag+"[%s] %s.%s %s", function, l.prefix, source, text)]. *)
Definition line_of (tag : string) (l : Logger) (function source text : string) : string :=
  tag +:+ "[" +:+ function +:+ "] " +:+ prefix l +:+ "." +:+ source +:+ " " +:+ text.

(* ===================================================================== *)
(** * Functions with the same text in both revisions *)
(* ===================================================================== *)

(** [logSizeStringToLogSizeInt64]. *)
Definition logSizeStringToLogSizeInt64 (lss : string) : Z * option error :=
  let l := 0 in
  let modifier :=
    if HasSuffix lss "K" then Some 1024
    else if HasSuffix lss "M" then Some (1024 * 1024)
    else if HasSuffix lss "G" then Some (1024 * 1024 * 1024)
    else if HasSuffix lss "T" then Some (1024 * 1024 * 1024 * 1024)
    else None in
  match modifier with
  | None =>
      (l, Some (errors_New "unknown rotation size modifier, allowed modifiers: 'K', 'M', 'G', 'T'"))
  | Some modifier =>
      let '(il, err) := Atoi (substring 0 (String.length lss - 1) lss) in
      match err with
      | Some e => (l, Some e)
      | None => (int_mul il modifier, None)
      end
  end.

(** [New]. *)
Definition New (prefix filename : string) (minloglevel : LogLevel) (rotate : bool)
    (rotatesize : string) (keep : Z) : M (Logger * option error) :=
  let l := Logger_zero in
  let l := set_filename l filename in
  let l := set_rotate l rotate in
  if (keep <? 2) && rotate then
    ret (l, Some (errors_New "keep_rotated too low (>=2)"))
  else
    let l := set_keep l keep in
    let l := set_prefix l prefix in
    let '(sz, err) := logSizeStringToLogSizeInt64 rotatesize in
    let l := set_rotatesize l sz in
    (match err with
     | Some e => log_Fatal ("FATAL: Incorrect log rotation size: " +:+ Error e)
     | None => ret tt
     end) ;;
    let* (fh, err) := os_OpenFile filename open_flags open_perm in
    let l := set_filehandle l fh in
    (match err with
     | Some e => log_Fatal ("FATAL: Unable to open log file: " +:+ Error e)
     | None => ret tt
     end) ;;
    let l := set_MinLoglevel l minloglevel in
    let l := set_base l (log_New (filehandle l)) in
    let l := set_rotation_running l false in
    ret (l, err).

(** [StringToLogLevel]: the cases of the switch, in order. *)
Definition StringToLogLevel (text : string) : LogLevel :=
  if String.eqb text "TRACE" || String.eqb text "Trace" || String.eqb text "trace" then LL_TRACE
  else if String.eqb text "DEBUG" || String.eqb text "Debug" || String.eqb text "debug" then LL_DEBUG
  else if String.eqb text "INFO" || String.eqb text "Info" || String.eqb text "info" then LL_INFO
  else if String.eqb text "WARN" || String.eqb text "Warn" || String.eqb text "warn" then LL_WARN
  else if String.eqb text "ERROR" || String.eqb text "Error" || String.eqb text "error" then LL_ERROR
  else if String.eqb text "FATAL" || String.eqb text "Fatal" || String.eqb text "fatal" then LL_FATAL
  else LL_INFO.

(** [LogLevelToString]. *)
Definition LogLevelToString (level : LogLevel) : string :=
  if level =? LL_TRACE then "TRACE"
  else if level =? LL_DEBUG then "DEBUG"
  else if level =? LL_INFO then "INFO"
  else if level =? LL_WARN then "WARN"
  else if level =? LL_ERROR then "ERROR"
  else if level =? LL_FATAL then "FATAL"
  else "UNKNOWN".

(** [AddFacilityFilter]. *)
Definition AddFacilityFilter (slog : Logger) (filtername : string) (filterlevel : LogLevel)
    : Logger :=
  let ffilter := mkFacilityFilter filtername filterlevel in
  set_filters slog
    (mkFacilityFilters (int_add (count (Logger_filters slog)) 1)
                       (filters (Logger_filters slog) ++ [ffilter])).

Section LoadFacilityFilters.
(** [json.Unmarshal] into a [map[string]string], and the order in which a
    [range] loop visits the entries of that map (unspecified in Go), are
    parameters of the embedding. *)
Variable json_Unmarshal : string → gmap string string * option error.
Variable range_order : gmap string string → list (string * string).

(** [LoadFacilityFilters]. *)
Definition LoadFacilityFilters (slog : Logger) (filename : string)
    : M (Logger * option error) :=
  let* (fcontents, err) := os_ReadFile filename in
  match err with
  | Some e => ret (slog, Some e)
  | None =>
      let '(lfilters, err) := json_Unmarshal fcontents in
      match err with
      | Some e => ret (slog, Some e)
      | None =>
          let slog :=
            foldl (fun slog '(fname, flevel) =>
                     let lflevel := StringToLogLevel flevel in
                     AddFacilityFilter slog fname lflevel)
                  slog (range_order lfilters) in
          ret (slog, None)
      end
  end.
End LoadFacilityFilters.

(** The loop [for i := l.keep - 1; i > 0; i--] of [logRotate], entered with
    [n] the value of [i]: a generation that exists moves one number up, and a
    failed rename leaves the loop with its error ([Some e] is the [return]
    inside the loop, [None] the normal end). *)
Fixpoint shift_generations (name : string) (n : nat) : M (option error) :=
  match n with
  | O => ret None
  | S n' =>
      let i := Z.of_nat n in
      let* (_, err) := os_Stat (generation name i) in
      match err with
      | None =>
          let* err := os_Rename (generation name i) (generation name (int_add i 1)) in
          match err with
          | Some e => ret (Some e)
          | None => shift_generations name n'
          end
      | Some _ => shift_generations name n'
      end
  end.

(* ===================================================================== *)
(** * Revision [servicelogger.go] *)
(* ===================================================================== *)

Module ServiceLogger.

(** The loop of [getFilteredLogLevel] over [slog.filters.filters], at index
    [n] with [rest] still to visit.  [foundfilter] is only ever assigned
    under [foundfilter > -1]. *)
Fixpoint filter_loop (all : list FacilityFilter) (facility : string)
    (n : Z) (rest : list FacilityFilter) (foundfilter : Z) : M Z :=
  match rest with
  | [] => ret foundfilter
  | f :: rest' =>
      let* foundfilter :=
        if HasPrefix facility (filter f) then
          fmt_Println ("Filter " +:+ filter f +:+ " matches") ;;
          if -1 <? foundfilter then
            match all !! Z.to_nat foundfilter with
            | None => panic
            | Some best =>
                if (String.length (filter best) <? String.length (filter f))%nat then
                  fmt_Println "This is now the best match" ;;
                  ret n
                else ret foundfilter
            end
          else ret foundfilter
        else ret foundfilter in
      filter_loop all facility (n + 1) rest' foundfilter
  end.

(** [getFilteredLogLevel] (value receiver). *)
Definition getFilteredLogLevel (slog : Logger) (facility : string) : M LogLevel :=
  fmt_Println ("Determining filtered level for facility " +:+ facility) ;;
  let all := filters (Logger_filters slog) in
  let* foundfilter := filter_loop all facility 0 all (-1) in
  if -1 <? foundfilter then
    match all !! Z.to_nat foundfilter with
    | None => panic
    | Some best =>
        fmt_Println ("After checking filters, the best match is " +:+ filter best
                     +:+ ", with log level " +:+ LogLevelToString (level best)) ;;
        ret (level best)
    end
  else
    fmt_Println "No match was found, returning the default log level" ;;
    ret (MinLoglevel slog).

(** [logRotate] (pointer receiver: the updated struct is returned with the
    error) and [LogTrace] (value receiver: its copy of the struct is lost).
    [fuel] bounds the depth of their mutual calls. *)
Fixpoint logRotate (fuel : nat) (l : Logger) {struct fuel} : M (Logger * option error) :=
  match fuel with
  | O => out_of_fuel
  | S fuel =>
      if rotate l && negb (rotation_running l) then
        let l := set_rotation_running l true in
        let* (size, err) := os_Stat (filename l) in
        match err with
        | Some e => ret (l, Some e)
        | None =>
            if rotatesize l <=? size then
              LogTrace fuel l "logRotate" "servicelogger" "Rotating log, closing logwriter" ;;
              let* (_, err) := os_Stat (generation (filename l) (keep l)) in
              let* err :=
                match err with
                | None => os_Remove (generation (filename l) (keep l))
                | Some e => ret (Some e)
                end in
              let* err := shift_generations (filename l) (Z.to_nat (int_sub (keep l) 1)) in
              match err with
              | Some e => ret (l, Some e)
              | None =>
                  let* err := os_Rename (filename l) (filename l +:+ ".1") in
                  match err with
                  | Some e => ret (l, Some e)
                  | None =>
                      let* (fh, err) := os_OpenFile (filename l) open_flags open_perm in
                      let l := set_filehandle l fh in
                      match err with
                      | Some e =>
                          log_Fatal ("FATAL: Unable to open log file " +:+ filename l
                                     +:+ ": " +:+ Error e)
                      | None => ret tt
                      end ;;
                      let l := set_base l (log_New (filehandle l)) in
                      LogTrace fuel l "logRotate" "servicelogger"
                               "Log rotated, reopened logwriter" ;;
                      ret (l, None)
                  end
              end
            else
              let l := set_rotation_running l false in
              ret (l, None)
        end
      else ret (l, None)
  end
with LogTrace (fuel : nat) (l : Logger) (function source text : string) {struct fuel}
    : M unit :=
  match fuel with
  | O => out_of_fuel
  | S fuel =>
      let* lvl := getFilteredLogLevel l (facility_of l source function) in
      if lvl <=? LL_TRACE then
        let* (l, _) := logRotate fuel l in
        Logger_Println (base l) (line_of "TRACE   " l function source text)
      else ret tt
  end.

(** [LogDebug], [LogInfo], [LogWarn], [LogError], [LogFatal] (value receivers). *)
Definition LogDebug (fuel : nat) (l : Logger) (function source text : string) : M unit :=
  let* lvl := getFilteredLogLevel l (facility_of l source function) in
  if lvl <=? LL_DEBUG then
    let* (l, _) := logRotate fuel l in
    Logger_Println (base l) (line_of "DEBUG   " l function source text)
  else ret tt.

Definition LogInfo (fuel : nat) (l : Logger) (function source text : string) : M unit :=
  let* lvl := getFilteredLogLevel l (facility_of l source function) in
  if lvl <=? LL_INFO then
    let* (l, _) := logRotate fuel l in
    Logger_Println (base l) (line_of "INFO    " l function source text)
  else ret tt.

Definition LogWarn (fuel : nat) (l : Logger) (function source text : string) : M unit :=
  let* lvl := getFilteredLogLevel l (facility_of l source function) in
  if lvl <=? LL_WARN then
    let* (l, _) := logRotate fuel l in
    Logger_Println (base l) (line_of "WARNING " l function source text)
  else ret tt.

Definition LogError (fuel : nat) (l : Logger) (function source text : string) : M unit :=
  let* lvl := getFilteredLogLevel l (facility_of l source function) in
  if lvl <=? LL_ERROR then
    let* (l, _) := logRotate fuel l in
    Logger_Println (base l) (line_of "ERROR   " l function source text)
  else ret tt.

Definition LogFatal (fuel : nat) (l : Logger) (function source text : string)
    (exitcode : Z) : M unit :=
  let* lvl := getFilteredLogLevel l (facility_of l source function) in
  if lvl <=? LL_FATAL then
    let* (l, _) := logRotate fuel l in
    Logger_Println (base l) (line_of "FATAL   " l function source text) ;;
    fmt_Println (line_of "FATAL: " l function source text) ;;
    os_Exit exitcode
  else ret tt.

(** [ApplyNewSettings] (pointer receiver). *)
Definition ApplyNewSettings (fuel : nat) (slog : Logger) (newFile : string)
    (newLevel : LogLevel) (newRotation : bool) (newRotSize : string) (newKeep : Z)
    : M (Logger * bool) :=
  let '(nrs, err) := logSizeStringToLogSizeInt64 newRotSize in
  match err with
  | Some e =>
      LogFatal fuel slog "ApplyNewSettings" "servicelogger"
               ("Failed to apply new settings: " +:+ Error e) 222
  | None => ret tt
  end ;;
  if negb (String.eqb newFile (filename slog))
     || negb (newLevel =? MinLoglevel slog)
     || negb (Bool.eqb newRotation (rotate slog))
     || negb (nrs =? rotatesize slog)
     || negb (newKeep =? keep slog) then
    LogInfo fuel slog "ApplyNewSettings" "servicelogger"
            "Logging configuration has changed, applying new configuration" ;;
    let* slog :=
      if negb (String.eqb newFile (filename slog)) then
        LogTrace fuel slog "ApplyNewSettings" "servicelogger"
                 ("Filename has changed. Closing " +:+ filename slog
                  +:+ " and continuing logging in " +:+ newFile) ;;
        File_Close (filehandle slog) ;;
        let slog := set_filename slog newFile in
        let* (fh, err) := os_OpenFile (filename slog) open_flags open_perm in
        let slog := set_filehandle slog fh in
        match err with
        | Some e => log_Fatal ("FATAL: Unable to open log file: " +:+ Error e)
        | None => ret tt
        end ;;
        ret (set_base slog (log_New (filehandle slog)))
      else ret slog in
    let* slog :=
      if negb (newLevel =? MinLoglevel slog) then
        LogTrace fuel slog "ApplyNewSettings" "servicelogger"
                 ("Log level has changed: " +:+ LogLevelToString (MinLoglevel slog)
                  +:+ " --> " +:+ LogLevelToString newLevel) ;;
        ret (set_MinLoglevel slog newLevel)
      else ret slog in
    let* slog :=
      if negb (Bool.eqb newRotation (rotate slog)) then
        (if newRotation then
           LogTrace fuel slog "ApplyNewSettings" "servicelogger" "Log rotation has been enabled"
         else
           LogTrace fuel slog "ApplyNewSettings" "servicelogger" "Log rotation has been disabled") ;;
        ret (set_rotate slog newRotation)
      else ret slog in
    let* slog :=
      if negb (nrs =? rotatesize slog) then
        LogTrace fuel slog "ApplyNewSettings" "servicelogger"
                 ("Log size limit has changed: " +:+ itoa (rotatesize slog)
                  +:+ " bytes --> " +:+ itoa nrs +:+ " bytes") ;;
        ret (set_rotatesize slog nrs)
      else ret slog in
    let* slog :=
      if negb (newKeep =? keep slog) then
        LogTrace fuel slog "ApplyNewSettings" "servicelogger"
                 ("Number of log files to keep has changed: " +:+ itoa (keep slog)
                  +:+ " --> " +:+ itoa newKeep) ;;
        ret (set_keep slog newKeep)
      else ret slog in
    ret (slog, true)
  else ret (slog, false).

End ServiceLogger.

(* ===================================================================== *)
(** * Revision [unnamed/part_000] *)
(* ===================================================================== *)

Module Part000.

(** The loop of [getFilteredLogLevel]: the first match is taken, and a later
    match replaces it when its filter is at least as long. *)
Fixpoint filter_loop (all : list FacilityFilter) (facility : string)
    (n : Z) (rest : list FacilityFilter) (foundfilter : Z) : M Z :=
  match rest with
  | [] => ret foundfilter
  | f :: rest' =>
      let* foundfilter :=
        if HasPrefix facility (filter f) then
          if -1 <? foundfilter then
            match all !! Z.to_nat foundfilter with
            | None => panic
            | Some best =>
                if (String.length (filter best) <=? String.length (filter f))%nat then ret n
                else ret foundfilter
            end
          else ret n
        else ret foundfilter in
      filter_loop all facility (n + 1) rest' foundfilter
  end.

(** [getFilteredLogLevel] (value receiver). *)
Definition getFilteredLogLevel (slog : Logger) (facility : string) : M LogLevel :=
  let all := filters (Logger_filters slog) in
  let* foundfilter := filter_loop all facility 0 all (-1) in
  if -1 <? foundfilter then
    match all !! Z.to_nat foundfilter with
    | None => panic
    | Some best => ret (level best)
    end
  else ret (MinLoglevel slog).

(** [logRotate], [LogTrace] and [LogError] (pointer receivers: each returns
    the updated struct).  [fuel] bounds the depth of their mutual calls. *)
Fixpoint logRotate (fuel : nat) (l : Logger) {struct fuel}
    : M (Logger * (option File * option error)) :=
  match fuel with
  | O => out_of_fuel
  | S fuel =>
      if rotate l && negb (rotation_running l) then
        let l := set_rotation_running l true in
        let* (size, err) := os_Stat (filename l) in
        match err with
        | Some e => ret (l, (base l, Some e))
        | None =>
            let finish (l : Logger) : M (Logger * (option File * option error)) :=
              let l := set_rotation_running l false in
              ret (l, (base l, None)) in
            if rotatesize l <=? size then
              let* l := LogTrace fuel l "logRotate" "servicelogger"
                                 "Rotating log, closing logwriter" in
              let* (_, err) := os_Stat (generation (filename l) (keep l)) in
              match err with
              | None => os_Remove (generation (filename l) (keep l)) ;; ret tt
              | Some _ => ret tt
              end ;;
              let* err := shift_generations (filename l) (Z.to_nat (int_sub (keep l) 1)) in
              match err with
              | Some e => ret (l, (base l, Some e))
              | None =>
                  let* err := os_Rename (filename l) (filename l +:+ ".1") in
                  match err with
                  | Some e => ret (l, (base l, Some e))
                  | None =>
                      let* (fh, err) := os_OpenFile (filename l) open_flags open_perm in
                      let l := set_filehandle l fh in
                      match err with
                      | Some e =>
                          log_Fatal ("FATAL: Unable to open log file " +:+ filename l
                                     +:+ ": " +:+ Error e)
                      | None => ret tt
                      end ;;
                      let l := set_base l (log_New (filehandle l)) in
                      let* l := LogTrace fuel l "logRotate" "servicelogger"
                                         "Log rotated, reopened logwriter" in
                      finish l
                  end
              end
            else finish l
        end
      else ret (l, (base l, None))
  end
with LogTrace (fuel : nat) (l : Logger) (function source text : string) {struct fuel}
    : M Logger :=
  match fuel with
  | O => out_of_fuel
  | S fuel =>
      let* lvl := getFilteredLogLevel l (facility_of l source function) in
      if lvl <=? LL_TRACE then
        let* (l, (newbase, err)) := logRotate fuel l in
        let* l :=
          match err with
          | Some e => LogError fuel l "LogTrace" "servicelogger"
                               ("Log rotation error: " +:+ Error e)
          | None => ret l
          end in
        let l := set_base l newbase in
        Logger_Printf (base l) (line_of "TRACE   " l function source text +:+ newline) ;;
        ret l
      else ret l
  end
with LogError (fuel : nat) (l : Logger) (function source text : string) {struct fuel}
    : M Logger :=
  match fuel with
  | O => out_of_fuel
  | S fuel =>
      let* lvl := getFilteredLogLevel l (facility_of l source function) in
      if lvl <=? LL_ERROR then
        let* (l, (newbase, err)) := logRotate fuel l in
        let* l :=
          match err with
          | Some e => LogError fuel l "LogError" "servicelogger"
                               ("Log rotation error: " +:+ Error e)
          | None => ret l
          end in
        let l := set_base l newbase in
        Logger_Printf (base l) (line_of "ERROR   " l function source text +:+ newline) ;;
        ret l
      else ret l
  end.

(** [LogDebug], [LogInfo], [LogWarn], [LogFatal] (pointer receivers). *)
Definition LogDebug (fuel : nat) (l : Logger) (function source text : string) : M Logger :=
  let* lvl := getFilteredLogLevel l (facility_of l source function) in
  if lvl <=? LL_DEBUG then
    let* (l, (newbase, err)) := logRotate fuel l in
    let* l :=
      match err with
      | Some e => LogError fuel l "LogDebug" "servicelogger"
                           ("Log rotation error: " +:+ Error e)
      | None => ret l
      end in
    let l := set_base l newbase in
    Logger_Printf (base l) (line_of "DEBUG   " l function source text +:+ newline) ;;
    ret l
  else ret l.

Definition LogInfo (fuel : nat) (l : Logger) (function source text : string) : M Logger :=
  let* lvl := getFilteredLogLevel l (facility_of l source function) in
  if lvl <=? LL_INFO then
    let* (l, (newbase, err)) := logRotate fuel l in
    let* l :=
      match err with
      | Some e => LogError fuel l "LogInfo" "servicelogger"
                           ("Log rotation error: " +:+ Error e)
      | None => ret l
      end in
    let l := set_base l newbase in
    Logger_Printf (base l) (line_of "INFO    " l function source text +:+ newline) ;;
    ret l
  else ret l.

Definition LogWarn (fuel : nat) (l : Logger) (function source text : string) : M Logger :=
  let* lvl := getFilteredLogLevel l (facility_of l source function) in
  if lvl <=? LL_WARN then
    let* (l, (newbase, err)) := logRotate fuel l in
    let* l :=
      match err with
      | Some e => LogError fuel l "LogWarn" "servicelogger"
                           ("Log rotation error: " +:+ Error e)
      | None => ret l
      end in
    let l := set_base l newbase in
    Logger_Printf (base l) (line_of "WARNING " l function source text +:+ newline) ;;
    ret l
  else ret l.

Definition LogFatal (fuel : nat) (l : Logger) (function source text : string)
    (exitcode : Z) : M Logger :=
  let* lvl := getFilteredLogLevel l (facility_of l source function) in
  if lvl <=? LL_FATAL then
    let* (l, (newbase, err)) := logRotate fuel l in
    let* l :=
      match err with
      | Some e => LogError fuel l "LogFatal" "servicelogger"
                           ("Log rotation error: " +:+ Error e)
      | None => ret l
      end in
    let l := set_base l newbase in
    Logger_Printf (base l) (line_of "FATAL   " l function source text +:+ newline) ;;
    fmt_Printf (line_of "FATAL: " l function source text +:+ newline) ;;
    os_Exit exitcode
  else ret l.

(** [ApplyNewSettings] (pointer receiver). *)
Definition ApplyNewSettings (fuel : nat) (slog : Logger) (newFile : string)
    (newLevel : LogLevel) (newRotation : bool) (newRotSize : string) (newKeep : Z)
    : M (Logger * bool) :=
  let '(nrs, err) := logSizeStringToLogSizeInt64 newRotSize in
  let* slog :=
    match err with
    | Some e =>
        LogFatal fuel slog "ApplyNewSettings" "servicelogger"
                 ("Failed to apply new settings: " +:+ Error e) 222
    | None => ret slog
    end in
  if negb (String.eqb newFile (filename slog))
     || negb (newLevel =? MinLoglevel slog)
     || negb (Bool.eqb newRotation (rotate slog))
     || negb (nrs =? rotatesize slog)
     || negb (newKeep =? keep slog) then
    let* slog := LogInfo fuel slog "ApplyNewSettings" "servicelogger"
                   "Logging configuration has changed, applying new configuration" in
    let* slog :=
      if negb (String.eqb newFile (filename slog)) then
        let* slog := LogTrace fuel slog "ApplyNewSettings" "servicelogger"
                       ("Filename has changed. Closing " +:+ filename slog
                        +:+ " and continuing logging in " +:+ newFile) in
        File_Close (filehandle slog) ;;
        let slog := set_filename slog newFile in
        let* (fh, err) := os_OpenFile (filename slog) open_flags open_perm in
        let slog := set_filehandle slog fh in
        match err with
        | Some e => log_Fatal ("FATAL: Unable to open log file: " +:+ Error e)
        | None => ret tt
        end ;;
        ret (set_base slog (log_New (filehandle slog)))
      else ret slog in
    let* slog :=
      if negb (newLevel =? MinLoglevel slog) then
        let* slog := LogTrace fuel slog "ApplyNewSettings" "servicelogger"
                       ("Log level has changed: " +:+ LogLevelToString (MinLoglevel slog)
                        +:+ " --> " +:+ LogLevelToString newLevel) in
        ret (set_MinLoglevel slog newLevel)
      else ret slog in
    let* slog :=
      if negb (Bool.eqb newRotation (rotate slog)) then
        let* slog :=
          if newRotation then
            LogTrace fuel slog "ApplyNewSettings" "servicelogger"
                     "Log rotation has been enabled"
          else
            LogTrace fuel slog "ApplyNewSettings" "servicelogger"
                     "Log rotation has been disabled" in
        ret (set_rotate slog newRotation)
      else ret slog in
    let* slog :=
      if negb (nrs =? rotatesize slog) then
        let* slog := LogTrace fuel slog "ApplyNewSettings" "servicelogger"
                       ("Log size limit has changed: " +:+ itoa (rotatesize slog)
                        +:+ " bytes --> " +:+ itoa nrs +:+ " bytes") in
        ret (set_rotatesize slog nrs)
      else ret slog in
    let* slog :=
      if negb (newKeep =? keep slog) then
        let* slog := LogTrace fuel slog "ApplyNewSettings" "servicelogger"
                       ("Number of log files to keep has changed: " +:+ itoa (keep slog)
                        +:+ " --> " +:+ itoa newKeep) in
        ret (set_keep slog newKeep)
      else ret slog in
    ret (slog, true)
  else ret (slog, false).

End Part000.

(* ===================================================================== *)
(** * Vocabulary of the statements *)
(* ===================================================================== *)

(** The multiplier of a unit suffix: [K], [M], [G], [T] are the powers of 1024. *)
Definition unit_multiplier (c : ascii) : option Z :=
  if Ascii.eqb c "K" then Some 1024
  else if Ascii.eqb c "M" then Some (1024 ^ 2)
  else if Ascii.eqb c "G" then Some (1024 ^ 3)
  else if Ascii.eqb c "T" then Some (1024 ^ 4)
  else None.

(** A string with one more byte at its end. *)
Definition snoc (m : string) (c : ascii) : string := m +:+ String c EmptyString.

(** Letter case of ASCII strings. *)
Definition lower_ascii (c : ascii) : ascii :=
  let n := nat_of_ascii c in
  if (65 <=? n)%nat && (n <=? 90)%nat then ascii_of_nat (n + 32) else c.

Definition upper_ascii (c : ascii) : ascii :=
  let n := nat_of_ascii c in
  if (97 <=? n)%nat && (n <=? 122)%nat then ascii_of_nat (n - 32) else c.

Fixpoint to_lower (s : string) : string :=
  match s with
  | EmptyString => EmptyString
  | String c s' => String (lower_ascii c) (to_lower s')
  end.

Fixpoint to_upper (s : string) : string :=
  match s with
  | EmptyString => EmptyString
  | String c s' => String (upper_ascii c) (to_upper s')
  end.

Definition capitalize (s : string) : string :=
  match s with
  | EmptyString => EmptyString
  | String c s' => String (upper_ascii c) (to_lower s')
  end.

(** The six levels with their names, and the spellings of a name that the
    switch of [StringToLogLevel] lists. *)
Definition level_names : list (string * LogLevel) :=
  [("TRACE", LL_TRACE); ("DEBUG", LL_DEBUG); ("INFO", LL_INFO);
   ("WARN", LL_WARN); ("ERROR", LL_ERROR); ("FATAL", LL_FATAL)].

Definition spellings (name : string) : list string :=
  [to_upper name; capitalize name; to_lower name].

Definition all_spellings : list string :=
  concat (map (fun p => spellings (fst p)) level_names).

(** The world with its standard output replaced. *)
Definition with_stdout (w : World) (out : list string) : World :=
  mkWorld (names w) (inodes w) out (stderr w).

(** The lines [getFilteredLogLevel] of [servicelogger.go] prints while it
    visits the filters: one for each filter that matches. *)
Definition match_lines (facility : string) (fs : list FacilityFilter) : list string :=
  flat_map (fun f =>
              if HasPrefix facility (filter f)
              then [("Filter " +:+ filter f +:+ " matches") +:+ newline] else []) fs.

(** A filter matches a facility when it is a prefix of it. *)
Definition matches (facility : string) (f : FacilityFilter) : Prop :=
  HasPrefix facility (filter f) = true.

(** The filter at index [i] matches and none that matches is longer; among
    the matching filters of its length it is the last. *)
Definition best_match (facility : string) (fs : list FacilityFilter) (i : nat)
    (f : FacilityFilter) : Prop :=
  fs !! i = Some f ∧ matches facility f
  ∧ ∀ j g, fs !! j = Some g → matches facility g →
           (String.length (filter g) <= String.length (filter f))%nat
           ∧ (String.length (filter g) = String.length (filter f) → (j <= i)%nat).

(** The example of the specification: [svc] at DEBUG, [svc.db] at ERROR. *)
Definition example_filters : FacilityFilters :=
  mkFacilityFilters 2 [mkFacilityFilter "svc" LL_DEBUG; mkFacilityFilter "svc.db" LL_ERROR].

Definition example_logger : Logger :=
  mkLogger None "svc" LL_INFO "svc.log" false 0 0 None false example_filters.

(** The filter a [range] step of [LoadFacilityFilters] adds for an entry. *)
Definition entry_filter (e : string * string) : FacilityFilter :=
  mkFacilityFilter (fst e) (StringToLogLevel (snd e)).

(** Everything [getFilteredLogLevel] of [servicelogger.go] prints in a call. *)
Definition lookup_lines (slog : Logger) (facility : string) : list string :=
  [("Determining filtered level for facility " +:+ facility) +:+ newline]
  ++ match_lines facility (filters (Logger_filters slog))
  ++ ["No match was found, returning the default log level" +:+ newline].

(** A result carried over to another world. *)
Definition lift_world {A} (r : Res A) (w : World) : Res A :=
  match r with
  | Ret a _ => Ret a w
  | Exit c _ => Exit c w
  | Panic _ => Panic w
  | OutOfFuel => OutOfFuel
  end.

(** The invariant of the loop of [getFilteredLogLevel] in [unnamed/part_000]:
    after the filters [done], [found] is -1 and none of them matches, or it
    is the index of their best match. *)
Definition scan_inv (facility : string) (done : list FacilityFilter) (found : Z) : Prop :=
  (found = -1 ∧ ∀ f, f ∈ done → ¬ matches facility f)
  ∨ (0 <= found ∧ ∃ f, best_match facility done (Z.to_nat found) f).

(** The level [getFilteredLogLevel] of [unnamed/part_000] returns; it reads
    no part of the world, so any world gives it. *)
Definition effective_level (slog : Logger) (facility : string) : LogLevel :=
  match Part000.getFilteredLogLevel slog facility (mkWorld ∅ [] [] []) with
  | Ret lvl _ => lvl
  | _ => MinLoglevel slog
  end.

(** The world after one more chunk is appended to an open file. *)
Definition append_chunk (f : File) (chunk : string) (w : World) : World :=
  mkWorld (names w)
          (alter (fun n => mkInode (data n ++ [chunk]) (perm n)) (fd_ino f) (inodes w))
          (stdout w) (stderr w).

(** The bytes one call of [Output] writes for the text [s]. *)
Definition log_chunk (s : string) : string :=
  log_header +:+ s +:+ (if ends_with_newline s then EmptyString else newline).

(** [m'] is the directory [m] after a completed rotation of the live file
    [name]: the live path names the new file [new], generation 1 the file [i]
    that was live, every path that is neither [name] nor one of its
    generations is as before, and, for a [keep] from 1 up, each generation
    [2..keep] is what the generation before it was, and the generations above
    [keep] are as before. *)
Definition rotated (name : string) (keep : Z) (m m' : gmap string nat) (i new : nat) : Prop :=
  m' !! name = Some new
  ∧ m' !! generation name 1 = Some i
  ∧ (∀ p, p ≠ name → (∀ j, p ≠ generation name j) → m' !! p = m !! p)
  ∧ (1 <= keep <= MaxInt64 →
     (∀ j, 2 <= j <= keep → m' !! generation name j = m !! generation name (j - 1))
     ∧ (∀ p, p ≠ name → (∀ j, 1 <= j <= keep → p ≠ generation name j) →
             m' !! p = m !! p)).

(** The world after a [LogTrace] of [unnamed/part_000] that does not rotate:
    the line is appended to the file of the writer when TRACE passes the
    level of the facility. *)
Definition P_traced (l : Logger) (function source text : string) (w : World) : World :=
  if effective_level l (facility_of l source function) <=? LL_TRACE then
    match base l with
    | Some b =>
        append_chunk b (log_chunk (line_of "TRACE   " l function source text +:+ newline)) w
    | None => w
    end
  else w.

(** The settings of a logger, which no logging call changes. *)
Definition same_settings (l l' : Logger) : Prop :=
  prefix l' = prefix l ∧ MinLoglevel l' = MinLoglevel l ∧ filename l' = filename l
  ∧ rotate l' = rotate l ∧ rotatesize l' = rotatesize l ∧ keep l' = keep l
  ∧ Logger_filters l' = Logger_filters l.

(** The writer of the logger is open on a file of the world. *)
Definition writer_ok (l : Logger) (w : World) : Prop :=
  ∃ b, base l = Some b ∧ (fd_ino b < length (inodes w))%nat.


(** The common shape of the logging methods of [unnamed/part_000]: [threshold]
    and [tag] are the level and the label of the method, [caller] its name,
    and [k] what it does after the line is written. *)
Definition P_log_with {A} (fuel : nat) (threshold : LogLevel) (tag caller : string)
    (k : Logger → M A) (skip : Logger → M A)
    (l : Logger) (function source text : string) : M A :=
  let* lvl := Part000.getFilteredLogLevel l (facility_of l source function) in
  if lvl <=? threshold then
    let* (l, (newbase, err)) := Part000.logRotate fuel l in
    let* l :=
      match err with
      | Some e => Part000.LogError fuel l caller "servicelogger"
                                   ("Log rotation error: " +:+ Error e)
      | None => ret l
      end in
    let l := set_base l newbase in
    Logger_Printf (base l) (line_of tag l function source text +:+ newline) ;;
    k l
  else skip l.

(** The world after a logging call of [servicelogger.go] that does not
    rotate: the lines of the level lookup go to standard output, and the
    line of the call is appended to the file of the writer when its level
    passes the minimum level. *)
Definition SL_logged (threshold : LogLevel) (tag : string) (l : Logger)
    (function source text : string) (w : World) : World :=
  let w := with_stdout w (stdout w ++ lookup_lines l (facility_of l source function)) in
  if MinLoglevel l <=? threshold then
    match base l with
    | Some b =>
        append_chunk b (log_chunk (line_of tag l function source text +:+ newline)) w
    | None => w
    end
  else w.


(** A running example: the log [svc.log] of 1080 bytes (fifteen lines) with
    three older generations, and a logger on it that rotates at 1024 bytes
    (the size string [1K]). *)
Definition demo_line : string :=
  "2006/01/02 15:04:05.000000 INFO    [main] svc.db connection established" +:+ newline.

Definition demo_world : World :=
  mkWorld {[ "svc.log" := 0%nat; "svc.log.1" := 1%nat;
             "svc.log.2" := 2%nat; "svc.log.3" := 3%nat ]}
          [mkInode (replicate 15 demo_line) open_perm; mkInode [demo_line] open_perm;
           mkInode [demo_line] open_perm; mkInode [demo_line] open_perm]
          [] [].

Definition demo_logger (keep : Z) : Logger :=
  mkLogger (Some (mkFile 0 open_flags)) "svc" LL_INFO "svc.log" true 1024 keep
           (Some (mkFile 0 open_flags)) false example_filters.

(** What a completed rotation of the logger [l] leaves, from the world [w]
    in which the live file was number [i], in the world [w'] with the struct
    [l']: the live path names a new file, created with the permission bits
    [0640] and holding at most the trace line written after the reopening;
    the writer is open on it in append-create mode; generation 1 is the file
    that was live, each generation [2..keep] is what the generation before it
    was, and every other path, the generations outside [1..keep] among them,
    is as before. *)
Definition rotation_outcome (l : Logger) (w : World) (i : nat) (l' : Logger) (w' : World)
    : Prop :=
  names w' !! filename l = Some (length (inodes w))
  ∧ (∃ chunks, inodes w' !! length (inodes w) = Some (mkInode chunks open_perm)
               ∧ (length chunks <= 1)%nat)
  ∧ base l' = Some (mkFile (length (inodes w)) open_flags)
  ∧ filehandle l' = Some (mkFile (length (inodes w)) open_flags)
  ∧ names w' !! generation (filename l) 1 = Some i
  ∧ (∀ j, 2 <= j <= keep l →
          names w' !! generation (filename l) j = names w !! generation (filename l) (j - 1))
  ∧ (∀ j, ¬ (1 <= j <= keep l) →
          names w' !! generation (filename l) j = names w !! generation (filename l) j)
  ∧ (∀ p, p ≠ filename l → (∀ j, p ≠ generation (filename l) j) →
          names w' !! p = names w !! p).


(** A message long enough to take a fresh log past 1024 bytes. *)
Definition demo_text : string :=
  foldr append EmptyString
    (replicate 13
       "connection pool exhausted after waiting for a free connection for thirty seconds").

(* ===================================================================== *)
(** * Strings and numbers *)
(* ===================================================================== *)

Lemma string_length_app (a b : string) :
  String.length (a +:+ b) = (String.length a + String.length b)%nat.
Proof. induction a as [|c a IH]; simpl; [reflexivity | now rewrite IH]. Qed.

Lemma substring_0_app (a b : string) : substring 0 (String.length a) (a +:+ b) = a.
Proof. induction a as [|c a IH]; simpl; [now destruct b | now rewrite IH]. Qed.

Lemma substring_skip_app (a b : string) (n : nat) :
  substring (String.length a) n (a +:+ b) = substring 0 n b.
Proof. induction a as [|c a IH]; simpl; [reflexivity | exact IH]. Qed.

Lemma append_cons (c : ascii) (a b : string) : String c a +:+ b = String c (a +:+ b).
Proof. reflexivity. Qed.

Lemma append_nil_l (b : string) : EmptyString +:+ b = b.
Proof. reflexivity. Qed.

(** [HasPrefix s p] holds exactly when [s] is [p] followed by something. *)
Lemma HasPrefix_spec (s p : string) : HasPrefix s p = true ↔ ∃ t, s = p +:+ t.
Proof.
  unfold HasPrefix. split.
  - intros H. apply andb_true_iff in H as [_ H]. apply String.eqb_eq in H.
    revert s H. induction p as [|c p IH]; intros s H.
    + exists s. reflexivity.
    + destruct s as [|d s]; simpl in H; [discriminate|].
      injection H as -> H. destruct (IH _ H) as [t ->]. exists t. reflexivity.
  - intros [t ->]. apply andb_true_iff. split.
    + apply Nat.leb_le. rewrite string_length_app. lia.
    + apply String.eqb_eq. apply substring_0_app.
Qed.

Lemma snoc_length (m : string) (c : ascii) : String.length (snoc m c) = S (String.length m).
Proof. unfold snoc. rewrite string_length_app. simpl. lia. Qed.

Lemma snoc_init (m : string) (c : ascii) :
  substring 0 (String.length (snoc m c) - 1) (snoc m c) = m.
Proof.
  rewrite snoc_length. replace (S (String.length m) - 1)%nat with (String.length m) by lia.
  apply substring_0_app.
Qed.

(** The one-byte suffix test looks at the last byte. *)
Lemma HasSuffix_snoc (m : string) (c d : ascii) :
  HasSuffix (snoc m c) (String d EmptyString) = Ascii.eqb c d.
Proof.
  unfold HasSuffix. rewrite snoc_length. simpl String.length.
  replace (S (String.length m) - 1)%nat with (String.length m) by lia.
  unfold snoc. rewrite substring_skip_app. simpl.
  now destruct (Ascii.eqb c d).
Qed.

Lemma string_snoc_cases (s : string) : s = EmptyString ∨ ∃ m c, s = snoc m c.
Proof.
  induction s as [|a s IH]; [now left | right].
  destruct IH as [->|(m & c & ->)].
  - exists EmptyString, a. reflexivity.
  - exists (String a m), c. reflexivity.
Qed.

Lemma wrap64_small (z : Z) : in_int64 z → wrap64 z = z.
Proof.
  unfold in_int64, MinInt64, MaxInt64, wrap64. intros H.
  rewrite Z.mod_small by lia. lia.
Qed.

Lemma wrap64_range (z : Z) : in_int64 (wrap64 z).
Proof.
  unfold in_int64, MinInt64, MaxInt64, wrap64.
  pose proof (Z.mod_pos_bound (z + 2 ^ 63) (2 ^ 64) ltac:(lia)). lia.
Qed.

(** ** Decimal numerals: [Atoi] reads back what [%d] prints *)

Lemma pretty_N_char_digit (x : N) :
  (x < 10)%N → is_digit (pretty_N_char x) = true ∧ digit_val (pretty_N_char x) = Z.of_N x.
Proof.
  intros H.
  assert (x ∈ [0; 1; 2; 3; 4; 5; 6; 7; 8; 9]%N) as Hx.
  { destruct x as [|p]; [set_solver|].
    do 9 (destruct p as [p|p|]; try lia; try set_solver). }
  repeat (apply elem_of_cons in Hx as [->|Hx]; [split; reflexivity|]).
  inversion Hx.
Qed.

Lemma N_div_mod_10 (x : N) :
  Z.of_N x = Z.of_N (x `div` 10) * 10 + Z.of_N (x `mod` 10).
Proof.
  rewrite N2Z.inj_div, N2Z.inj_mod. change (Z.of_N 10) with 10.
  pose proof (Z.div_mod (Z.of_N x) 10 ltac:(lia)). lia.
Qed.

Lemma ParseUint_loop_pretty (x : N) (s : string) :
  Z.of_N x <= MaxUint64 →
  ParseUint_loop (pretty_N_go x s) 0 = ParseUint_loop s (Z.of_N x).
Proof.
  revert s. induction (N.lt_wf_0 x) as [x _ IH]. intros s Hx.
  destruct (decide (x = 0%N)) as [->|Hpos].
  - now rewrite pretty_N_go_0.
  - rewrite pretty_N_go_step by lia.
    assert (x `div` 10 < x)%N as Hlt by (apply N.div_lt; lia).
    rewrite IH; [|exact Hlt|lia].
    destruct (pretty_N_char_digit (x `mod` 10)) as [Hd Hv];
      [apply N.mod_lt; lia|].
    simpl. rewrite Hd, Hv.
    rewrite <- N_div_mod_10.
    destruct (Z.ltb_spec MaxUint64 (Z.of_N x)); [lia | reflexivity].
Qed.

Lemma pretty_N_go_head (x : N) (s : string) :
  (0 < x)%N → ∃ c r, pretty_N_go x s = String c r ∧ is_digit c = true.
Proof.
  revert s. induction (N.lt_wf_0 x) as [x _ IH]. intros s Hx.
  rewrite pretty_N_go_step by lia.
  destruct (pretty_N_char_digit (x `mod` 10)) as [Hd _]; [apply N.mod_lt; lia|].
  destruct (decide (x `div` 10 = 0)%N) as [E|Hne].
  - rewrite E, pretty_N_go_0. eauto.
  - apply IH; [apply N.div_lt; lia | now apply N.neq_0_lt_0].
Qed.

Lemma is_digit_not_sign (c : ascii) :
  is_digit c = true → Ascii.eqb c "+" = false ∧ Ascii.eqb c "-" = false.
Proof.
  intros H. split.
  - destruct (Ascii.eqb_spec c "+") as [->|]; [discriminate | reflexivity].
  - destruct (Ascii.eqb_spec c "-") as [->|]; [discriminate | reflexivity].
Qed.

Lemma Atoi_pos (p : positive) :
  Z.pos p <= MaxInt64 → Atoi (pretty (Z.pos p)) = (Z.pos p, None).
Proof.
  intros Hp. unfold pretty, pretty_Z, pretty, pretty_positive, pretty, pretty_N.
  destruct (decide (N.pos p = 0%N)) as [|_]; [discriminate|].
  destruct (pretty_N_go_head (N.pos p) EmptyString) as (c & r & Hs & Hd); [lia|].
  pose proof (ParseUint_loop_pretty (N.pos p) EmptyString) as HP.
  rewrite Hs in *. unfold Atoi.
  destruct (is_digit_not_sign c Hd) as [-> ->]. simpl orb. cbv iota.
  unfold ParseUint. rewrite HP by (unfold MaxUint64, MaxInt64 in *; simpl; lia).
  simpl ParseUint_loop. simpl negb. simpl andb.
  unfold MaxInt64 in Hp.
  change (Z.of_N (N.pos p)) with (Z.pos p). cbv beta iota zeta.
  destruct (Z.leb_spec (2 ^ 63) (Z.pos p)); [lia | reflexivity].
Qed.

Lemma Atoi_neg (p : positive) :
  MinInt64 <= Z.neg p → Atoi (pretty (Z.neg p)) = (Z.neg p, None).
Proof.
  intros Hp.
  assert (pretty (Z.neg p) = String "-" (pretty_N_go (N.pos p) EmptyString)) as ->.
  { unfold pretty, pretty_Z, pretty, pretty_positive, pretty, pretty_N.
    destruct (decide (N.pos p = 0%N)) as [|_]; [discriminate | reflexivity]. }
  pose proof (ParseUint_loop_pretty (N.pos p) EmptyString) as HP.
  destruct (pretty_N_go_head (N.pos p) EmptyString) as (c & r & Hs & Hd); [lia|].
  rewrite Hs in *. unfold Atoi, ParseUint.
  change (Ascii.eqb "-" "+" || Ascii.eqb "-" "-") with true. cbv iota.
  rewrite HP by (unfold MaxUint64, MinInt64 in *; simpl; lia).
  simpl ParseUint_loop. change (Ascii.eqb "-" "-") with true.
  simpl negb. simpl andb. unfold MinInt64 in Hp.
  change (Z.of_N (N.pos p)) with (Z.pos p). cbv beta iota zeta.
  destruct (Z.ltb_spec (2 ^ 63) (Z.pos p)); [lia | reflexivity].
Qed.

(** [Atoi] reads the decimal numeral of every 64-bit integer. *)
Lemma Atoi_itoa (n : Z) : in_int64 n → Atoi (itoa n) = (n, None).
Proof.
  intros [Hlo Hhi]. unfold itoa. destruct n as [|p|p].
  - reflexivity.
  - now apply Atoi_pos.
  - now apply Atoi_neg.
Qed.

(* ===================================================================== *)
(** * Rotation size strings *)
(* ===================================================================== *)

(** What [logSizeStringToLogSizeInt64] does with a string that ends in [c]. *)
Lemma logSizeString_snoc (m : string) (c : ascii) :
  logSizeStringToLogSizeInt64 (snoc m c) =
  match unit_multiplier c with
  | None =>
      (0, Some (errors_New
                  "unknown rotation size modifier, allowed modifiers: 'K', 'M', 'G', 'T'"))
  | Some k =>
      match Atoi m with
      | (_, Some e) => (0, Some e)
      | (il, None) => (wrap64 (il * k), None)
      end
  end.
Proof.
  unfold logSizeStringToLogSizeInt64, unit_multiplier.
  rewrite !HasSuffix_snoc, snoc_init.
  destruct (Ascii.eqb c "K"); [destruct (Atoi m) as [il [e|]]; reflexivity|].
  destruct (Ascii.eqb c "M"); [destruct (Atoi m) as [il [e|]]; reflexivity|].
  destruct (Ascii.eqb c "G"); [destruct (Atoi m) as [il [e|]]; reflexivity|].
  destruct (Ascii.eqb c "T"); [destruct (Atoi m) as [il [e|]]; reflexivity|].
  reflexivity.
Qed.

(** C3, as stated, fails: the magnitude 2^53 with the suffix [K] is accepted
    and yields -2^63, not 2^53 * 1024: the product wraps around in Go's int. *)
Lemma logSizeString_overflow :
  Atoi "9007199254740992" = (9007199254740992, None)
  ∧ unit_multiplier "K" = Some 1024
  ∧ logSizeStringToLogSizeInt64 "9007199254740992K" = (-9223372036854775808, None)
  ∧ -9223372036854775808 ≠ 9007199254740992 * 1024.
Proof. repeat split; [vm_compute; reflexivity .. | lia]. Qed.

(** C3 (amended): a decimal integer followed by exactly one of [K], [M], [G],
    [T] yields the integer times 1024, 1024^2, 1024^3, 1024^4 whenever that
    product fits in a signed 64-bit integer (in general the product wrapped
    around to 64 bits); a string that ends in any other byte, a string whose
    part before the suffix [Atoi] rejects, and the empty string yield an error
    and the value 0. *)
Theorem logSizeString_units :
  (∀ n c k, in_int64 n → unit_multiplier c = Some k → in_int64 (n * k) →
     logSizeStringToLogSizeInt64 (snoc (itoa n) c) = (n * k, None))
  ∧ (∀ m c k n, unit_multiplier c = Some k → Atoi m = (n, None) →
     logSizeStringToLogSizeInt64 (snoc m c) = (wrap64 (n * k), None))
  ∧ (∀ m c, unit_multiplier c = None →
     ∃ e, logSizeStringToLogSizeInt64 (snoc m c) = (0, Some e))
  ∧ (∀ m c e, snd (Atoi m) = Some e →
     ∃ e', logSizeStringToLogSizeInt64 (snoc m c) = (0, Some e'))
  ∧ (∃ e, logSizeStringToLogSizeInt64 EmptyString = (0, Some e)).
Proof.
  repeat split.
  - intros n c k Hn Hc Hnk. rewrite logSizeString_snoc, Hc, Atoi_itoa by exact Hn.
    now rewrite wrap64_small.
  - intros m c k n Hc Hm. now rewrite logSizeString_snoc, Hc, Hm.
  - intros m c Hc. rewrite logSizeString_snoc, Hc. eauto.
  - intros m c e Hm. rewrite logSizeString_snoc.
    destruct (unit_multiplier c); [|eauto].
    destruct (Atoi m) as [il [e0|]]; [eauto | discriminate].
  - eexists. reflexivity.
Qed.

Lemma logSizeString_units_witness :
  logSizeStringToLogSizeInt64 "10K" = (10240, None)
  ∧ logSizeStringToLogSizeInt64 "1M" = (1048576, None)
  ∧ logSizeStringToLogSizeInt64 "2G" = (2147483648, None)
  ∧ (∃ e, logSizeStringToLogSizeInt64 "10X" = (0, Some e))
  ∧ (∃ e, logSizeStringToLogSizeInt64 "abcK" = (0, Some e))
  ∧ (∃ e, logSizeStringToLogSizeInt64 "10" = (0, Some e)).
Proof.
  destruct logSizeString_units as (H1 & _ & H3 & H4 & _).
  split; [|split; [|split; [|split; [|split]]]].
  - apply (H1 10 "K"%char 1024); [unfold in_int64, MinInt64, MaxInt64; lia
      | reflexivity | unfold in_int64, MinInt64, MaxInt64; lia].
  - apply (H1 1 "M"%char (1024 ^ 2)); [unfold in_int64, MinInt64, MaxInt64; lia
      | reflexivity | unfold in_int64, MinInt64, MaxInt64; lia].
  - apply (H1 2 "G"%char (1024 ^ 3)); [unfold in_int64, MinInt64, MaxInt64; lia
      | reflexivity | unfold in_int64, MinInt64, MaxInt64; lia].
  - apply (H3 "10" "X"%char). reflexivity.
  - apply (H4 "abc" "K"%char (NumError "Atoi" "abc" ErrSyntax)). reflexivity.
  - apply (H3 "1" "0"%char). reflexivity.
Defined.

(* ===================================================================== *)
(** * Level names *)
(* ===================================================================== *)

Lemma all_spellings_eq :
  all_spellings =
  ["TRACE"; "Trace"; "trace"; "DEBUG"; "Debug"; "debug"; "INFO"; "Info"; "info";
   "WARN"; "Warn"; "warn"; "ERROR"; "Error"; "error"; "FATAL"; "Fatal"; "fatal"].
Proof. reflexivity. Qed.

(** C9, as stated, fails: [TRaCE] is a letter casing of [TRACE], yet it maps
    to INFO. *)
Lemma StringToLogLevel_mixed_case :
  to_upper "TRaCE" = "TRACE"
  ∧ StringToLogLevel "TRaCE" = LL_INFO
  ∧ StringToLogLevel "TRaCE" ≠ LL_TRACE.
Proof. repeat split. discriminate. Qed.

(** C9 (amended): of every level name, the three spellings in upper case,
    capitalised, and in lower case map to that level; every other string, the
    other mixed casings such as [TRaCE] among them, maps to INFO, and no input
    raises an error (the function is total). *)
Theorem StringToLogLevel_spellings :
  (∀ name L s, (name, L) ∈ level_names → s ∈ spellings name → StringToLogLevel s = L)
  ∧ (∀ s, s ∉ all_spellings → StringToLogLevel s = LL_INFO).
Proof.
  split.
  - intros name L s HL Hs. unfold level_names in HL.
    repeat (apply elem_of_cons in HL as [HL|HL];
            [injection HL as -> ->; unfold spellings in Hs;
             repeat (apply elem_of_cons in Hs as [->|Hs]; [reflexivity|]);
             inversion Hs|]).
    inversion HL.
  - intros s Hs. rewrite all_spellings_eq in Hs.
    repeat (apply not_elem_of_cons in Hs as [?%String.eqb_neq Hs]).
    unfold StringToLogLevel.
    repeat match goal with H : String.eqb _ _ = false |- _ => rewrite H; clear H end.
    reflexivity.
Qed.

Lemma StringToLogLevel_spellings_witness :
  StringToLogLevel "Trace" = LL_TRACE ∧ StringToLogLevel "verbose" = LL_INFO.
Proof.
  destruct StringToLogLevel_spellings as [H1 H2]. split.
  - apply (H1 "TRACE" LL_TRACE "Trace"); [unfold level_names | unfold spellings];
      repeat constructor.
  - apply (H2 "verbose"). rewrite all_spellings_eq.
    repeat (apply not_elem_of_cons; split; [discriminate|]). apply not_elem_of_nil.
Defined.

(** C10: for every level [L] among TRACE, DEBUG, INFO, WARN, ERROR, FATAL,
    [StringToLogLevel (LogLevelToString L) = L]. *)
Theorem level_name_roundtrip (L : LogLevel) :
  L ∈ [LL_TRACE; LL_DEBUG; LL_INFO; LL_WARN; LL_ERROR; LL_FATAL] →
  StringToLogLevel (LogLevelToString L) = L.
Proof.
  intros HL.
  repeat (apply elem_of_cons in HL as [->|HL]; [reflexivity|]).
  inversion HL.
Qed.

Lemma level_name_roundtrip_witness :
  StringToLogLevel (LogLevelToString LL_WARN) = LL_WARN.
Proof. apply (level_name_roundtrip LL_WARN). repeat constructor. Defined.

(* ===================================================================== *)
(** * Construction *)
(* ===================================================================== *)

Lemma open_flags_create : Z.testbit open_flags 6 = true.
Proof. reflexivity. Qed.

(** C6: with rotation enabled and [keep < 2], [New] returns the error
    [keep_rotated too low] without touching the world (no file is opened, the
    returned struct has no file handle); with rotation enabled [New] returns
    without error only when [keep >= 2], and it does so for every such [keep]
    when the size string parses and the path is not empty. *)
Theorem New_keep_check (prefix filename rotatesize : string) (minloglevel : LogLevel)
    (keep : Z) (w : World) :
  (keep < 2 →
   New prefix filename minloglevel true rotatesize keep w =
   Ret (set_rotate (set_filename Logger_zero filename) true,
        Some (errors_New "keep_rotated too low (>=2)")) w)
  ∧ (∀ l w', New prefix filename minloglevel true rotatesize keep w = Ret (l, None) w' →
             2 <= keep)
  ∧ (2 <= keep → snd (logSizeStringToLogSizeInt64 rotatesize) = None →
     filename ≠ EmptyString →
     ∃ l w', New prefix filename minloglevel true rotatesize keep w = Ret (l, None) w'
             ∧ is_Some (filehandle l) ∧ is_Some (resolve w' filename)).
Proof.
  unfold New. split; [|split].
  - intros Hk. destruct (Z.ltb_spec keep 2); [reflexivity | lia].
  - intros l w'. destruct (Z.ltb_spec keep 2); [discriminate | intros _; lia].
  - intros Hk Hsz Hfn. destruct (Z.ltb_spec keep 2); [lia|]. cbn [andb].
    destruct (logSizeStringToLogSizeInt64 rotatesize) as [sz [e|]]; [discriminate|].
    unfold bind, ret, os_OpenFile.
    destruct (resolve w filename) as [i|] eqn:Hr.
    + eexists _, _. split; [reflexivity|]. split; [eexists; reflexivity|].
      rewrite Hr. eauto.
    + destruct (decide (filename = EmptyString)) as [|_]; [contradiction|].
      rewrite open_flags_create.
      eexists _, _. split; [reflexivity|]. split; [eexists; reflexivity|].
      unfold resolve. simpl.
      destruct (decide (filename = EmptyString)) as [|_]; [contradiction|].
      rewrite lookup_insert_eq. eauto.
Qed.

Lemma New_keep_check_witness :
  New "svc" "svc.log" LL_INFO true "10K" 1 (mkWorld ∅ [] [] []) =
  Ret (set_rotate (set_filename Logger_zero "svc.log") true,
       Some (errors_New "keep_rotated too low (>=2)")) (mkWorld ∅ [] [] [])
  ∧ ∃ l w', New "svc" "svc.log" LL_INFO true "10K" 2 (mkWorld ∅ [] [] []) = Ret (l, None) w'
            ∧ is_Some (filehandle l) ∧ is_Some (resolve w' "svc.log").
Proof.
  split.
  - apply (proj1 (New_keep_check "svc" "svc.log" "10K" LL_INFO 1 (mkWorld ∅ [] [] []))).
    lia.
  - apply (proj2 (proj2 (New_keep_check "svc" "svc.log" "10K" LL_INFO 2 (mkWorld ∅ [] [] []))));
      [lia | reflexivity | discriminate].
Defined.

(* ===================================================================== *)
(** * Facility filters *)
(* ===================================================================== *)

Lemma AddFacilityFilter_fields (slog : Logger) (name : string) (lv : LogLevel) :
  let slog' := AddFacilityFilter slog name lv in
  filters (Logger_filters slog') = filters (Logger_filters slog) ++ [mkFacilityFilter name lv]
  ∧ count (Logger_filters slog') = int_add (count (Logger_filters slog)) 1
  ∧ set_filters slog' (Logger_filters slog) = slog.
Proof. destruct slog as [? ? ? ? ? ? ? ? ? [? ?]]. repeat split. Qed.

Lemma load_loop_filters (entries : list (string * string)) (slog : Logger) :
  filters (Logger_filters
             (foldl (fun slog '(fname, flevel) =>
                       let lflevel := StringToLogLevel flevel in
                       AddFacilityFilter slog fname lflevel) slog entries))
  = filters (Logger_filters slog) ++ map entry_filter entries.
Proof.
  revert slog. induction entries as [|[k v] entries IH]; intros slog; cbn [foldl map].
  - now rewrite app_nil_r.
  - rewrite IH. cbv zeta.
    destruct (AddFacilityFilter_fields slog k (StringToLogLevel v)) as (A1 & _ & _).
    rewrite A1, <- app_assoc. reflexivity.
Qed.

Lemma set_filters_twice (l : Logger) (x y : FacilityFilters) :
  set_filters (set_filters l x) y = set_filters l y.
Proof. reflexivity. Qed.

Lemma load_loop_others (entries : list (string * string)) (slog : Logger) :
  set_filters
    (foldl (fun slog '(fname, flevel) =>
              let lflevel := StringToLogLevel flevel in
              AddFacilityFilter slog fname lflevel) slog entries)
    (Logger_filters slog) = slog.
Proof.
  revert slog. induction entries as [|[k v] entries IH]; intros slog; cbn [foldl].
  - now destruct slog.
  - pose proof (IH (AddFacilityFilter slog k (StringToLogLevel v))) as E.
    apply (f_equal (fun x => set_filters x (Logger_filters slog))) in E.
    rewrite set_filters_twice in E.
    transitivity (set_filters (AddFacilityFilter slog k (StringToLogLevel v))
                              (Logger_filters slog));
      [exact E | apply AddFacilityFilter_fields].
Qed.

Section LoadFacilityFilters_facts.
Variable json_Unmarshal : string → gmap string string * option error.
Variable range_order : gmap string string → list (string * string).
(** A [range] loop visits every entry of the map once, in some order. *)
Hypothesis range_order_perm : ∀ m, range_order m ≡ₚ map_to_list m.

(** C8: when the file is missing, or [json.Unmarshal] rejects its contents,
    [LoadFacilityFilters] returns that error and the struct unchanged; on
    success it returns no error and the filters are the previous ones
    followed by one filter per entry of the parsed map (key as prefix,
    [StringToLogLevel] of the value as level), every other field unchanged. *)
Theorem LoadFacilityFilters_spec (slog : Logger) (filename : string) (w : World) :
  (resolve w filename = None →
   ∃ e, LoadFacilityFilters json_Unmarshal range_order slog filename w
        = Ret (slog, Some e) w)
  ∧ (∀ i m e, resolve w filename = Some i →
              json_Unmarshal (file_bytes (file_at w i)) = (m, Some e) →
              LoadFacilityFilters json_Unmarshal range_order slog filename w
              = Ret (slog, Some e) w)
  ∧ (∀ i m, resolve w filename = Some i →
            json_Unmarshal (file_bytes (file_at w i)) = (m, None) →
            ∃ slog' added,
              LoadFacilityFilters json_Unmarshal range_order slog filename w
              = Ret (slog', None) w
              ∧ filters (Logger_filters slog') = filters (Logger_filters slog) ++ added
              ∧ added ≡ₚ map entry_filter (map_to_list m)
              ∧ length added = size m
              ∧ set_filters slog' (Logger_filters slog) = slog).
Proof.
  unfold LoadFacilityFilters, bind, os_ReadFile, ret. split; [|split].
  - intros ->. eauto.
  - intros i m e -> ->. reflexivity.
  - intros i m -> ->. eexists _, (map entry_filter (range_order m)).
    split; [reflexivity|]. split; [apply load_loop_filters|].
    split; [now rewrite range_order_perm|].
    split; [|apply load_loop_others].
    rewrite length_map, range_order_perm. apply length_map_to_list.
Qed.
End LoadFacilityFilters_facts.

Lemma LoadFacilityFilters_spec_witness :
  let m : gmap string string := {[ "svc.http" := "warn" ]} in
  let parse := fun s : string =>
    if String.eqb s "{}" then (m, None)
    else (∅, Some (errors_New "unexpected end of JSON input")) in
  let w := mkWorld {[ "filters.json" := 0%nat; "broken.json" := 1%nat ]}
                   [mkInode ["{"; "}"] 416; mkInode ["{"] 416] [] [] in
  (∃ e, LoadFacilityFilters parse map_to_list example_logger "missing.json" w
        = Ret (example_logger, Some e) w)
  ∧ LoadFacilityFilters parse map_to_list example_logger "broken.json" w
    = Ret (example_logger, Some (errors_New "unexpected end of JSON input")) w
  ∧ ∃ slog' added,
      LoadFacilityFilters parse map_to_list example_logger "filters.json" w
      = Ret (slog', None) w
      ∧ filters (Logger_filters slog') = filters (Logger_filters example_logger) ++ added
      ∧ added ≡ₚ map entry_filter (map_to_list m)
      ∧ length added = size m
      ∧ set_filters slog' (Logger_filters example_logger) = example_logger.
Proof.
  intros m parse w.
  pose proof (LoadFacilityFilters_spec parse map_to_list (fun m => Permutation_refl _)
                example_logger) as H.
  split; [|split].
  - apply (proj1 (H "missing.json" w)). reflexivity.
  - apply (proj1 (proj2 (H "broken.json" w)) 1%nat ∅); reflexivity.
  - apply (proj2 (proj2 (H "filters.json" w)) 0%nat m); reflexivity.
Defined.

(* ===================================================================== *)
(** * Resolving the level of a facility *)
(* ===================================================================== *)

(** ** Revision [servicelogger.go] *)

Lemma with_stdout_id (w : World) : with_stdout w (stdout w ++ []) = w.
Proof. destruct w. unfold with_stdout. simpl. now rewrite app_nil_r. Qed.

(** The loop never leaves [foundfilter = -1]: it only prints. *)
Lemma SL_filter_loop (all rest : list FacilityFilter) (facility : string) (n : Z) (w : World) :
  ServiceLogger.filter_loop all facility n rest (-1) w
  = Ret (-1) (with_stdout w (stdout w ++ match_lines facility rest)).
Proof.
  revert n w. induction rest as [|f rest IH]; intros n w.
  - simpl. unfold ret. now rewrite with_stdout_id.
  - cbn [ServiceLogger.filter_loop match_lines flat_map].
    unfold bind at 1. destruct (HasPrefix facility (filter f)).
    + unfold bind at 1, fmt_Println. change (-1 <? -1) with false. cbv iota.
      unfold ret at 1. rewrite IH. f_equal. unfold with_stdout. simpl.
      now rewrite <- app_assoc.
    + unfold ret at 1. rewrite IH. reflexivity.
Qed.

(** Whatever the filters, the result is the minimum level of the struct. *)
Lemma SL_getFilteredLogLevel (slog : Logger) (facility : string) (w : World) :
  ServiceLogger.getFilteredLogLevel slog facility w
  = Ret (MinLoglevel slog) (with_stdout w (stdout w ++ lookup_lines slog facility)).
Proof.
  unfold ServiceLogger.getFilteredLogLevel, lookup_lines.
  unfold bind at 1, fmt_Println. unfold bind at 1. rewrite SL_filter_loop.
  change (-1 <? -1) with false. cbv iota. unfold bind, ret. f_equal.
  unfold with_stdout. simpl. now rewrite <- !app_assoc.
Qed.

(** ** Revision [unnamed/part_000] *)

(** The loop reads no part of the world and leaves it as it is. *)
Lemma P_filter_loop_pure (all rest : list FacilityFilter) (facility : string)
    (n found : Z) (w w0 : World) :
  Part000.filter_loop all facility n rest found w
  = lift_world (Part000.filter_loop all facility n rest found w0) w.
Proof.
  revert n found. induction rest as [|f rest IH]; intros n found; [reflexivity|].
  cbn [Part000.filter_loop]. unfold bind.
  destruct (HasPrefix facility (filter f)); [|unfold ret; apply IH].
  destruct (-1 <? found); [|unfold ret; apply IH].
  destruct (all !! Z.to_nat found) as [best|]; [|reflexivity].
  destruct (String.length (filter best) <=? String.length (filter f))%nat;
    unfold ret; apply IH.
Qed.

Lemma P_getFilteredLogLevel_pure (slog : Logger) (facility : string) (w w0 : World) :
  Part000.getFilteredLogLevel slog facility w
  = lift_world (Part000.getFilteredLogLevel slog facility w0) w.
Proof.
  unfold Part000.getFilteredLogLevel, bind.
  rewrite (P_filter_loop_pure _ _ _ _ _ w w0).
  destruct (Part000.filter_loop _ _ _ _ _ w0) as [found w1| | |]; try reflexivity.
  simpl. destruct (-1 <? found); [|reflexivity].
  destruct (_ !! Z.to_nat found); reflexivity.
Qed.

Lemma best_match_skip (facility : string) (done : list FacilityFilter) (i : nat)
    (g f : FacilityFilter) :
  best_match facility done i g →
  (matches facility f → String.length (filter f) < String.length (filter g))%nat →
  best_match facility (done ++ [f]) i g.
Proof.
  intros (Hi & Hm & Hbest) Hf. split; [|split; [exact Hm|]].
  - now apply lookup_app_l_Some.
  - intros j h Hj Hh. apply lookup_app_Some in Hj as [Hj|[Hlen Hj]].
    + now apply Hbest.
    + apply list_lookup_singleton_Some in Hj as [_ <-]. specialize (Hf Hh). lia.
Qed.

Lemma best_match_take (facility : string) (done : list FacilityFilter) (f : FacilityFilter) :
  matches facility f →
  (∀ j g, done !! j = Some g → matches facility g →
          (String.length (filter g) <= String.length (filter f))%nat) →
  best_match facility (done ++ [f]) (length done) f.
Proof.
  intros Hm Hle. split; [|split; [exact Hm|]].
  - rewrite lookup_app_r by lia. now rewrite Nat.sub_diag.
  - intros j g Hj Hg. apply lookup_app_Some in Hj as [Hj|[Hlen Hj]].
    + split; [now apply (Hle j)|]. intros _. apply lookup_lt_Some in Hj. lia.
    + apply list_lookup_singleton_Some in Hj as [Hj <-]. lia.
Qed.

Lemma P_filter_loop_inv (all : list FacilityFilter) (facility : string) (w : World) :
  ∀ rest done found,
    all = done ++ rest → scan_inv facility done found →
    ∃ found', Part000.filter_loop all facility (Z.of_nat (length done)) rest found w
              = Ret found' w
              ∧ scan_inv facility all found'.
Proof.
  induction rest as [|f rest IH]; intros done found Hall Hinv.
  - rewrite app_nil_r in Hall. subst done. eexists. split; [reflexivity | exact Hinv].
  - assert (all = (done ++ [f]) ++ rest) as Hall' by now rewrite <- app_assoc.
    assert (Z.of_nat (length done) + 1 = Z.of_nat (length (done ++ [f]))) as Hn
      by (rewrite length_app; simpl; lia).
    cbn [Part000.filter_loop]. unfold bind at 1.
    destruct (HasPrefix facility (filter f)) eqn:Hf.
    + destruct Hinv as [[-> Hnone]|[Hpos (g & Hg)]].
      * change (-1 <? -1) with false. cbv iota. unfold ret at 1. rewrite Hn.
        apply IH; [exact Hall'|]. right. split; [lia|]. exists f.
        rewrite Nat2Z.id. apply best_match_take; [exact Hf|].
        intros j g Hj Hgm. exfalso. apply (Hnone g); [|exact Hgm].
        eapply list_elem_of_lookup_2; eauto.
      * destruct (Z.ltb_spec (-1) found); [|lia].
        assert (all !! Z.to_nat found = Some g) as ->.
        { rewrite Hall. apply lookup_app_l_Some. apply Hg. }
        destruct (Nat.leb_spec (String.length (filter g)) (String.length (filter f))).
        -- unfold ret at 1. rewrite Hn. apply IH; [exact Hall'|]. right. split; [lia|].
           exists f. rewrite Nat2Z.id. apply best_match_take; [exact Hf|].
           intros j h Hj Hh. destruct Hg as (_ & _ & Hbest).
           destruct (Hbest j h Hj Hh). lia.
        -- unfold ret at 1. rewrite Hn. apply IH; [exact Hall'|]. right. split; [lia|].
           exists g. apply best_match_skip; [exact Hg | intros _; lia].
    + unfold ret at 1. rewrite Hn. apply IH; [exact Hall'|].
      destruct Hinv as [[-> Hnone]|[Hpos (g & Hg)]].
      * left. split; [reflexivity|]. intros h Hh. apply elem_of_app in Hh as [Hh|Hh].
        -- now apply Hnone.
        -- apply list_elem_of_singleton in Hh as ->. unfold matches. now rewrite Hf.
      * right. split; [lia|]. exists g. apply best_match_skip; [exact Hg|].
        unfold matches. rewrite Hf. discriminate.
Qed.

(** [getFilteredLogLevel] of [unnamed/part_000] returns the level of the best
    match, or the minimum level of the struct when no filter matches. *)
Lemma P_getFilteredLogLevel_spec (slog : Logger) (facility : string) (w : World) :
  Part000.getFilteredLogLevel slog facility w = Ret (effective_level slog facility) w
  ∧ ((effective_level slog facility = MinLoglevel slog
      ∧ ∀ f, f ∈ filters (Logger_filters slog) → ¬ matches facility f)
     ∨ ∃ i f, best_match facility (filters (Logger_filters slog)) i f
              ∧ effective_level slog facility = level f).
Proof.
  assert (∀ w, ∃ lvl, Part000.getFilteredLogLevel slog facility w = Ret lvl w
     ∧ ((lvl = MinLoglevel slog
         ∧ ∀ f, f ∈ filters (Logger_filters slog) → ¬ matches facility f)
        ∨ ∃ i f, best_match facility (filters (Logger_filters slog)) i f
                 ∧ lvl = level f)) as H.
  { intros w1. unfold Part000.getFilteredLogLevel, bind.
    destruct (P_filter_loop_inv (filters (Logger_filters slog)) facility w1
                (filters (Logger_filters slog)) [] (-1) eq_refl) as (found & E & Hinv).
    { left. split; [reflexivity|]. intros f Hf. inversion Hf. }
    change (Z.of_nat (length [])) with 0 in E. rewrite E.
    destruct Hinv as [[-> Hnone]|[Hpos (g & Hg)]].
    - change (-1 <? -1) with false. cbv iota. eexists. split; [reflexivity|]. now left.
    - destruct (Z.ltb_spec (-1) found); [|lia].
      rewrite (proj1 Hg). eexists. split; [reflexivity|]. right. eauto. }
  destruct (H (mkWorld ∅ [] [] [])) as (lvl0 & E0 & Hspec).
  assert (effective_level slog facility = lvl0) as Heff
    by (unfold effective_level; now rewrite E0).
  rewrite Heff. split; [|exact Hspec].
  rewrite (P_getFilteredLogLevel_pure _ _ w (mkWorld ∅ [] [] [])), E0. reflexivity.
Qed.

Lemma P_getFilteredLogLevel_eq (slog : Logger) (facility : string) (w : World) :
  Part000.getFilteredLogLevel slog facility w = Ret (effective_level slog facility) w.
Proof. apply P_getFilteredLogLevel_spec. Qed.

(** Longest-prefix match in [unnamed/part_000]: a matching filter strictly
    longer than every other matching filter decides the level; without a
    match the minimum level of the struct is returned. *)
Lemma P_getFilteredLogLevel_longest (slog : Logger) (facility : string) (w : World) :
  (∀ i f, filters (Logger_filters slog) !! i = Some f → matches facility f →
          (∀ j g, j ≠ i → filters (Logger_filters slog) !! j = Some g →
                  matches facility g →
                  (String.length (filter g) < String.length (filter f))%nat) →
          Part000.getFilteredLogLevel slog facility w = Ret (level f) w)
  ∧ ((∀ f, f ∈ filters (Logger_filters slog) → ¬ matches facility f) →
     Part000.getFilteredLogLevel slog facility w = Ret (MinLoglevel slog) w).
Proof.
  destruct (P_getFilteredLogLevel_spec slog facility w) as [-> Hspec]. split.
  - intros i f Hi Hm Hlong. destruct Hspec as [[_ Hnone]|(j & g & Hg & ->)].
    + exfalso. apply (Hnone f); [|exact Hm]. eapply list_elem_of_lookup_2; eauto.
    + destruct (decide (j = i)) as [->|Hne].
      * destruct Hg as (Hj & _). rewrite Hi in Hj. now injection Hj as ->.
      * destruct Hg as (Hj & Hgm & Hbest). specialize (Hlong j g Hne Hj Hgm).
        destruct (Hbest i f Hi Hm). lia.
  - intros Hnone. destruct Hspec as [[-> _]|(j & g & Hg & _)]; [reflexivity|].
    exfalso. destruct Hg as (Hj & Hgm & _). apply (Hnone g); [|exact Hgm].
    eapply list_elem_of_lookup_2; eauto.
Qed.

(** C1 (defect of [servicelogger.go]): with the filters [svc] at DEBUG and
    [svc.db] at ERROR and the minimum level INFO, the facility [svc.db.query]
    resolves to INFO in [servicelogger.go], where the loop never records a
    first match, while [unnamed/part_000] resolves it to ERROR as the claim
    says. *)
Theorem getFilteredLogLevel_example (w : World) :
  ServiceLogger.getFilteredLogLevel example_logger "svc.db.query" w
  = Ret LL_INFO (with_stdout w (stdout w ++ lookup_lines example_logger "svc.db.query"))
  ∧ Part000.getFilteredLogLevel example_logger "svc.db.query" w = Ret LL_ERROR w.
Proof.
  split; [apply SL_getFilteredLogLevel|].
  apply (proj1 (P_getFilteredLogLevel_longest example_logger "svc.db.query" w)
           1%nat (mkFacilityFilter "svc.db" LL_ERROR)); [reflexivity..|].
  intros [|[|j]] g Hne Hj Hg; [|contradiction|discriminate].
  injection Hj as <-. simpl. lia.
Qed.

(* ===================================================================== *)
(** * Files and directory entries *)
(* ===================================================================== *)

Lemma bind_eq {A B} (m : M A) (k : A → M B) (w w' : World) (a : A) :
  m w = Ret a w' → bind m k w = k a w'.
Proof. unfold bind. now intros ->. Qed.

Lemma append_nil_r (s : string) : s +:+ EmptyString = s.
Proof. induction s as [|c s IH]; [reflexivity|]. rewrite append_cons. now f_equal. Qed.

Lemma generation_nonempty (name : string) (i : Z) : generation name i ≠ EmptyString.
Proof. unfold generation. destruct name; discriminate. Qed.

Lemma generation_inj (name : string) (i j : Z) :
  generation name i = generation name j → i = j.
Proof.
  unfold generation. intros H. apply String.app_inj in H.
  rewrite !append_cons, !append_nil_l in H. injection H as H.
  now apply pretty_Z_inj in H.
Qed.

Lemma generation_not_live (name : string) (i : Z) : generation name i ≠ name.
Proof.
  unfold generation. intros H. rewrite <- (append_nil_r name) in H at 2.
  apply String.app_inj in H. discriminate.
Qed.

Lemma generation_1 (name : string) : name +:+ ".1" = generation name 1.
Proof. reflexivity. Qed.

Lemma resolve_nonempty (w : World) (p : string) :
  p ≠ EmptyString → resolve w p = names w !! p.
Proof. intros H. unfold resolve. now destruct (decide (p = EmptyString)). Qed.

Lemma resolve_Some_nonempty (w : World) (p : string) (i : nat) :
  resolve w p = Some i → p ≠ EmptyString ∧ names w !! p = Some i.
Proof. unfold resolve. destruct (decide (p = EmptyString)); [discriminate | auto]. Qed.

Lemma resolve_generation (w : World) (name : string) (i : Z) :
  resolve w (generation name i) = names w !! generation name i.
Proof. apply resolve_nonempty, generation_nonempty. Qed.

Lemma int_add_small (a b : Z) : in_int64 (a + b) → int_add a b = a + b.
Proof. apply wrap64_small. Qed.

Lemma int_sub_small (a b : Z) : in_int64 (a - b) → int_sub a b = a - b.
Proof. apply wrap64_small. Qed.




Lemma set_base_id (l : Logger) : set_base l (base l) = l.
Proof. now destruct l. Qed.

(* ===================================================================== *)
(** * Revision [unnamed/part_000]: logging calls without rotation *)
(* ===================================================================== *)

(** With rotation disabled or already running, [logRotate] returns at once. *)
Lemma P_logRotate_guard (n : nat) (l : Logger) (w : World) :
  rotate l && negb (rotation_running l) = false →
  Part000.logRotate (S n) l w = Ret (l, (base l, None)) w.
Proof. intros H. cbn [Part000.logRotate]. now rewrite H. Qed.

(** ... and a logging call writes its line, if its level passes, and changes
    nothing else. *)
Lemma P_LogTrace_quiet (n : nat) (l : Logger) (function source text : string) (w : World) :
  rotate l && negb (rotation_running l) = false →
  Part000.LogTrace (S (S n)) l function source text w =
  if effective_level l (facility_of l source function) <=? LL_TRACE then
    match base l with
    | Some b =>
        Ret l (append_chunk b (log_chunk (line_of "TRACE   " l function source text
                                          +:+ newline)) w)
    | None => Panic w
    end
  else Ret l w.
Proof.
  intros H. cbn [Part000.LogTrace].
  rewrite (bind_eq _ _ _ _ _ (P_getFilteredLogLevel_eq _ _ _)).
  destruct (_ <=? LL_TRACE); [|reflexivity].
  rewrite (bind_eq _ _ _ _ _ (P_logRotate_guard _ _ _ H)).
  unfold bind, ret. rewrite set_base_id. unfold Logger_Printf.
  destruct (base l) as [b|]; reflexivity.
Qed.


(* ===================================================================== *)
(** * The generational shift *)
(* ===================================================================== *)

Lemma world_eta (w : World) : mkWorld (names w) (inodes w) (stdout w) (stderr w) = w.
Proof. now destruct w. Qed.

Lemma os_Stat_eq (p : string) (w : World) :
  os_Stat p w =
  Ret (match resolve w p with
       | Some i => (file_size (file_at w i), None)
       | None => (0, Some (PathError "stat" p))
       end) w.
Proof. unfold os_Stat. now destruct (resolve w p). Qed.

Lemma os_Rename_Some (old new : string) (i : nat) (w : World) :
  resolve w old = Some i → new ≠ EmptyString →
  os_Rename old new w =
  Ret None (mkWorld (<[new := i]> (delete old (names w))) (inodes w) (stdout w) (stderr w)).
Proof.
  intros H Hn. unfold os_Rename. rewrite H.
  now destruct (decide (new = EmptyString)).
Qed.

(** The loop of [logRotate], entered at [i = n]: it ends normally, touches
    only directory entries that are generations of [name], and, when the
    entry of generation [n + 1] is free, moves each generation [1..n] one
    number up. *)
Lemma shift_generations_spec (name : string) (n : nat) (w : World) :
  ∃ m', shift_generations name n w = Ret None (mkWorld m' (inodes w) (stdout w) (stderr w))
    ∧ (∀ p, (∀ j, p ≠ generation name j) → m' !! p = names w !! p)
    ∧ (Z.of_nat n < MaxInt64 → names w !! generation name (Z.of_nat n + 1) = None →
       (∀ j, 2 <= j <= Z.of_nat n + 1 →
             m' !! generation name j = names w !! generation name (j - 1))
       ∧ (1 <= Z.of_nat n → m' !! generation name 1 = None)
       ∧ (∀ p, (∀ j, 1 <= j <= Z.of_nat n + 1 → p ≠ generation name j) →
               m' !! p = names w !! p)
       ∧ (n = 0%nat → m' = names w)).
Proof.
  revert w. induction n as [|n IH]; intros w.
  - exists (names w). split; [simpl; unfold ret; now rewrite world_eta|].
    split; [reflexivity|]. intros _ _. repeat split; try reflexivity; intros; lia.
  - cbn [shift_generations]. set (i := Z.of_nat (S n)).
    rewrite (bind_eq _ _ _ _ _ (os_Stat_eq _ _)), resolve_generation.
    destruct (names w !! generation name i) as [x|] eqn:Hx.
    + rewrite (bind_eq _ _ _ _ _ (os_Rename_Some _ _ x _
                 ltac:(rewrite resolve_generation; exact Hx)
                 (generation_nonempty _ _))).
      set (w1 := mkWorld _ _ _ _).
      destruct (IH w1) as (m' & E & Hother & Hshift). exists m'.
      split; [exact E|]. split.
      * intros p Hp. rewrite (Hother p Hp). unfold w1. simpl.
        rewrite lookup_insert_ne by (apply not_eq_sym, Hp).
        rewrite lookup_delete_ne by (apply not_eq_sym, Hp). reflexivity.
      * intros Hn Hfree.
        assert (int_add i 1 = i + 1) as Hi
          by (apply int_add_small; unfold in_int64, MinInt64, MaxInt64 in *; lia).
        assert (∀ a b, a ≠ b → generation name a ≠ generation name b) as Hne
          by (intros a b Hab Hg; apply Hab; eapply generation_inj; eauto).
        destruct Hshift as (Ha & Hb & Hc & Hd).
        { lia. }
        { unfold w1. simpl. rewrite Hi.
          replace (Z.of_nat n + 1) with i by lia.
          rewrite lookup_insert_ne by (apply Hne; lia). apply lookup_delete_eq. }
        split; [|split; [|split]].
        -- intros j Hj. destruct (decide (j = i + 1)) as [->|Hji].
           ++ rewrite Hc by (intros j' Hj'; apply Hne; lia).
              unfold w1. simpl. rewrite Hi, lookup_insert_eq.
              replace (i + 1 - 1) with i by lia. now rewrite Hx.
           ++ rewrite Ha by lia. unfold w1. simpl. rewrite Hi.
              rewrite lookup_insert_ne by (apply Hne; lia).
              rewrite lookup_delete_ne by (apply Hne; lia). reflexivity.
        -- intros _. destruct (decide (n = 0%nat)) as [Hn0|Hn0].
           ++ rewrite (Hd Hn0). unfold w1. simpl. rewrite Hi.
              rewrite lookup_insert_ne by (apply Hne; lia).
              replace 1 with i by lia. apply lookup_delete_eq.
           ++ apply Hb. lia.
        -- intros p Hp. rewrite Hc by (intros j' Hj'; apply Hp; lia).
           unfold w1. simpl. rewrite Hi.
           rewrite lookup_insert_ne by (apply not_eq_sym, Hp; lia).
           rewrite lookup_delete_ne by (apply not_eq_sym, Hp; lia). reflexivity.
        -- discriminate.
    + destruct (IH w) as (m' & E & Hother & Hshift). exists m'.
      split; [exact E|]. split; [exact Hother|].
      intros Hn Hfree.
      assert (∀ a b, a ≠ b → generation name a ≠ generation name b) as Hne
        by (intros a b Hab Hg; apply Hab; eapply generation_inj; eauto).
      destruct Hshift as (Ha & Hb & Hc & Hd).
      { lia. }
      { replace (Z.of_nat n + 1) with i by lia. exact Hx. }
      split; [|split; [|split]].
      * intros j Hj. destruct (decide (j = i + 1)) as [->|Hji].
        -- rewrite Hc by (intros j' Hj'; apply Hne; lia).
           replace (i + 1 - 1) with i by lia. rewrite Hx.
           replace (i + 1) with (Z.of_nat (S n) + 1) by lia. exact Hfree.
        -- apply Ha. lia.
      * intros _. destruct (decide (n = 0%nat)) as [Hn0|Hn0].
        -- rewrite (Hd Hn0). replace 1 with i by lia. exact Hx.
        -- apply Hb. lia.
      * intros p Hp. apply Hc. intros j' Hj'. apply Hp. lia.
      * discriminate.
Qed.

(** The file operations of a rotation, from the state in which generation
    [keep] is gone: the loop, the renaming of the live file and the opening
    of the new one all succeed, and leave the directory [rotated]. *)
Lemma rotation_files (name : string) (keep : Z) (w : World) (i : nat) :
  resolve w name = Some i →
  ∃ m2 m3 m',
    shift_generations name (Z.to_nat (int_sub keep 1))
      (mkWorld (delete (generation name keep) (names w)) (inodes w) (stdout w) (stderr w))
    = Ret None (mkWorld m2 (inodes w) (stdout w) (stderr w))
    ∧ os_Rename name (name +:+ ".1") (mkWorld m2 (inodes w) (stdout w) (stderr w))
      = Ret None (mkWorld m3 (inodes w) (stdout w) (stderr w))
    ∧ os_OpenFile name open_flags open_perm (mkWorld m3 (inodes w) (stdout w) (stderr w))
      = Ret (Some (mkFile (length (inodes w)) open_flags), None)
            (mkWorld m' (inodes w ++ [mkInode [] open_perm]) (stdout w) (stderr w))
    ∧ rotated name keep (names w) m' i (length (inodes w)).
Proof.
  intros Hres. apply resolve_Some_nonempty in Hres as [Hname Hi].
  set (w1 := mkWorld (delete (generation name keep) (names w)) _ _ _).
  destruct (shift_generations_spec name (Z.to_nat (int_sub keep 1)) w1)
    as (m2 & E2 & Hother & Hshift).
  assert (∀ j, name ≠ generation name j) as Hlive
    by (intros j; apply not_eq_sym, generation_not_live).
  assert (m2 !! name = Some i) as Hi2.
  { rewrite (Hother name Hlive). unfold w1. simpl.
    rewrite lookup_delete_ne by (apply not_eq_sym, Hlive). exact Hi. }
  set (m3 := <[generation name 1 := i]> (delete name m2)).
  set (m' := <[name := length (inodes w)]> m3).
  exists m2, m3, m'. split; [exact E2|]. split; [|split].
  - rewrite generation_1.
    apply (os_Rename_Some name (generation name 1) i
             (mkWorld m2 (inodes w) (stdout w) (stderr w)));
      [|apply generation_nonempty].
    rewrite resolve_nonempty by exact Hname. exact Hi2.
  - unfold os_OpenFile. rewrite resolve_nonempty by exact Hname. simpl names.
    unfold m3 at 1. rewrite lookup_insert_ne by (apply not_eq_sym, Hlive).
    rewrite lookup_delete_eq.
    destruct (decide (name = EmptyString)); [contradiction|].
    now rewrite open_flags_create.
  - assert (∀ a b, a ≠ b → generation name a ≠ generation name b) as Hne
      by (intros a b Hab Hg; apply Hab; eapply generation_inj; eauto).
    split; [apply lookup_insert_eq|]. split.
    { unfold m', m3. rewrite lookup_insert_ne by apply Hlive. apply lookup_insert_eq. }
    split.
    + intros p Hp Hgen. unfold m', m3.
      rewrite lookup_insert_ne by (apply not_eq_sym, Hp).
      rewrite lookup_insert_ne by (apply not_eq_sym, Hgen).
      rewrite lookup_delete_ne by (apply not_eq_sym, Hp).
      rewrite (Hother p Hgen). unfold w1. simpl.
      rewrite lookup_delete_ne by (apply not_eq_sym, Hgen). reflexivity.
    + intros Hkeep.
      assert (int_sub keep 1 = keep - 1) as Hk
        by (apply int_sub_small; unfold in_int64, MinInt64, MaxInt64 in *; lia).
      rewrite Hk in *.
      assert (Z.of_nat (Z.to_nat (keep - 1)) + 1 = keep) as Hn by lia.
      destruct Hshift as (Ha & Hb & Hc & Hd).
      { unfold MaxInt64 in *. lia. }
      { rewrite Hn. unfold w1. simpl. apply lookup_delete_eq. }
      rewrite Hn in *. split.
      * intros j Hj. unfold m', m3.
        rewrite lookup_insert_ne by apply Hlive.
        rewrite lookup_insert_ne by (apply Hne; lia).
        rewrite lookup_delete_ne by apply Hlive.
        rewrite Ha by lia. unfold w1. simpl.
        rewrite lookup_delete_ne by (apply Hne; lia). reflexivity.
      * intros p Hp Hgen. unfold m', m3.
        rewrite lookup_insert_ne by (apply not_eq_sym, Hp).
        rewrite lookup_insert_ne by (apply not_eq_sym, Hgen; lia).
        rewrite lookup_delete_ne by (apply not_eq_sym, Hp).
        rewrite Hc by exact Hgen. unfold w1. simpl.
        rewrite lookup_delete_ne by (apply not_eq_sym, Hgen; lia). reflexivity.
Qed.

(** Deleting generation [keep] if it exists. *)
Lemma os_Remove_generation (name : string) (k : Z) (w : World) :
  is_Some (names w !! generation name k) →
  os_Remove (generation name k) w
  = Ret None (mkWorld (delete (generation name k) (names w)) (inodes w) (stdout w) (stderr w)).
Proof.
  intros [x Hx]. unfold os_Remove. now rewrite resolve_generation, Hx.
Qed.

Lemma delete_absent_world (p : string) (w : World) :
  names w !! p = None →
  w = mkWorld (delete p (names w)) (inodes w) (stdout w) (stderr w).
Proof. intros H. rewrite delete_id by exact H. now rewrite world_eta. Qed.

(** The first step of a rotation, as [unnamed/part_000] writes it: whatever
    follows runs in the world without generation [keep]. *)
Lemma drop_keep_P {A} (name : string) (k : Z) (rest : M A) (w : World) :
  (let* (_, err) := os_Stat (generation name k)
   in match err with
      | Some _ => ret ()
      | None => os_Remove (generation name k);; ret ()
      end;;
      rest) w
  = rest (mkWorld (delete (generation name k) (names w)) (inodes w) (stdout w) (stderr w)).
Proof.
  rewrite (bind_eq _ _ _ _ _ (os_Stat_eq _ _)), resolve_generation.
  destruct (names w !! generation name k) as [x|] eqn:Hx.
  - unfold bind. rewrite os_Remove_generation by (rewrite Hx; eauto). reflexivity.
  - unfold bind, ret. now rewrite <- (delete_absent_world _ w Hx).
Qed.

(** The same step as [servicelogger.go] writes it. *)
Lemma drop_keep_SL {A} (name : string) (k : Z) (rest : M A) (w : World) :
  (let* (_, err) := os_Stat (generation name k)
   in let* err :=
        match err with
        | None => os_Remove (generation name k)
        | Some e => ret (Some e)
        end
      in rest) w
  = rest (mkWorld (delete (generation name k) (names w)) (inodes w) (stdout w) (stderr w)).
Proof.
  rewrite (bind_eq _ _ _ _ _ (os_Stat_eq _ _)), resolve_generation.
  destruct (names w !! generation name k) as [x|] eqn:Hx.
  - unfold bind. rewrite os_Remove_generation by (rewrite Hx; eauto). reflexivity.
  - unfold bind, ret. now rewrite <- (delete_absent_world _ w Hx).
Qed.

(* ===================================================================== *)
(** * Revision [unnamed/part_000]: rotation *)
(* ===================================================================== *)

Lemma guard_running (l : Logger) :
  rotation_running l = true → rotate l && negb (rotation_running l) = false.
Proof. intros ->. apply andb_false_r. Qed.

Lemma P_LogTrace_traced (n : nat) (l : Logger) (function source text : string) (w : World) :
  rotate l && negb (rotation_running l) = false → is_Some (base l) →
  Part000.LogTrace (S (S n)) l function source text w
  = Ret l (P_traced l function source text w).
Proof.
  intros H [b Hb]. rewrite P_LogTrace_quiet by exact H. unfold P_traced.
  rewrite Hb. now destruct (_ <=? LL_TRACE).
Qed.

Lemma P_traced_fields (l : Logger) (function source text : string) (w : World) :
  names (P_traced l function source text w) = names w
  ∧ length (inodes (P_traced l function source text w)) = length (inodes w)
  ∧ stdout (P_traced l function source text w) = stdout w
  ∧ stderr (P_traced l function source text w) = stderr w.
Proof.
  unfold P_traced. destruct (_ <=? LL_TRACE); [|auto].
  destruct (base l); [|auto]. unfold append_chunk. simpl.
  rewrite length_alter. auto.
Qed.

(** The rotation of [unnamed/part_000] when it fires. *)
Lemma P_logRotate_fires (n : nat) (l : Logger) (w : World) (b : File) (i : nat) :
  rotate l = true → rotation_running l = false → base l = Some b →
  resolve w (filename l) = Some i → rotatesize l <= file_size (file_at w i) →
  ∃ m',
    let l1 := set_rotation_running l true in
    let w1 := P_traced l1 "logRotate" "servicelogger" "Rotating log, closing logwriter" w in
    let nf := mkFile (length (inodes w)) open_flags in
    let l2 := set_base (set_filehandle l1 (Some nf)) (Some nf) in
    let w2 := mkWorld m' (inodes w1 ++ [mkInode [] open_perm]) (stdout w) (stderr w) in
    Part000.logRotate (S (S (S n))) l w
    = Ret (set_rotation_running l2 false, (Some nf, None))
          (P_traced l2 "logRotate" "servicelogger" "Log rotated, reopened logwriter" w2)
    ∧ rotated (filename l) (keep l) (names w) m' i (length (inodes w)).
Proof.
  intros Hrot Hrun Hb Hres Hsize.
  pose (l1 := set_rotation_running l true).
  pose (w1 := P_traced l1 "logRotate" "servicelogger" "Rotating log, closing logwriter" w).
  destruct (P_traced_fields l1 "logRotate" "servicelogger"
              "Rotating log, closing logwriter" w) as (Hn1 & Hlen1 & Hout1 & Herr1).
  fold w1 in Hn1, Hlen1, Hout1, Herr1.
  assert (resolve w1 (filename l) = Some i) as Hres1
    by (unfold resolve in *; now rewrite Hn1).
  destruct (rotation_files (filename l) (keep l) w1 i Hres1)
    as (m2 & m3 & m' & E2 & E3 & E4 & Hrotated).
  rewrite Hn1, Hlen1, Hout1, Herr1 in *.
  exists m'. cbv zeta. split; [|exact Hrotated].
  cbn [Part000.logRotate]. rewrite Hrot, Hrun. cbn [andb negb].
  rewrite (bind_eq _ _ _ _ _ (os_Stat_eq _ _)).
  cbn [filename set_rotation_running]. rewrite Hres.
  cbn [rotatesize set_rotation_running].
  destruct (Z.leb_spec (rotatesize l) (file_size (file_at w i))); [|lia].
  rewrite (bind_eq _ _ _ _ _ (P_LogTrace_traced n l1 _ _ _ w
                                (guard_running l1 eq_refl)
                                ltac:(unfold l1; cbn; rewrite Hb; eauto))).
  fold w1. unfold l1 at 1 2 3 4. cbn [filename keep set_rotation_running].
  rewrite drop_keep_P. rewrite Hn1, Hout1, Herr1.
  rewrite (bind_eq _ _ _ _ _ E2).
  unfold l1 at 1. cbn [filename set_rotation_running].
  rewrite (bind_eq _ _ _ _ _ E3).
  unfold l1 at 1. cbn [filename set_rotation_running].
  rewrite (bind_eq _ _ _ _ _ E4).
  unfold bind at 1. unfold ret at 1.
  pose (l2 := set_base (set_filehandle l1 (Some (mkFile (length (inodes w)) open_flags)))
                       (Some (mkFile (length (inodes w)) open_flags))).
  rewrite (bind_eq _ _ _ _ _
             (P_LogTrace_traced n l2 _ _ _ _ (guard_running l2 eq_refl)
                                ltac:(cbn; eauto))).
  reflexivity.
Qed.


Lemma P_LogError_shape (fuel : nat) (l : Logger) (function source text : string) :
  Part000.LogError (S fuel) l function source text
  = P_log_with fuel LL_ERROR "ERROR   " "LogError" ret ret l function source text.
Proof. reflexivity. Qed.

Lemma P_LogDebug_shape (fuel : nat) (l : Logger) (function source text : string) :
  Part000.LogDebug fuel l function source text
  = P_log_with fuel LL_DEBUG "DEBUG   " "LogDebug" ret ret l function source text.
Proof. reflexivity. Qed.


Lemma P_LogWarn_shape (fuel : nat) (l : Logger) (function source text : string) :
  Part000.LogWarn fuel l function source text
  = P_log_with fuel LL_WARN "WARNING " "LogWarn" ret ret l function source text.
Proof. reflexivity. Qed.


Lemma same_settings_refl (l : Logger) : same_settings l l.
Proof. unfold same_settings. auto 10. Qed.

Lemma set_rotation_running_twice (l : Logger) :
  rotation_running l = false →
  set_rotation_running (set_rotation_running l true) false = l.
Proof. destruct l. simpl. now intros ->. Qed.



(** Below the threshold [logRotate] changes nothing. *)
Lemma P_logRotate_below (n : nat) (l : Logger) (w : World) (i : nat) :
  rotate l = true → rotation_running l = false →
  resolve w (filename l) = Some i → file_size (file_at w i) < rotatesize l →
  Part000.logRotate (S n) l w = Ret (l, (base l, None)) w.
Proof.
  intros Hrot Hrun Hres Hsize.
  cbn [Part000.logRotate]. rewrite Hrot, Hrun. cbn [andb negb].
  rewrite (bind_eq _ _ _ _ _ (os_Stat_eq _ _)).
  cbn [filename set_rotation_running]. rewrite Hres.
  cbn [rotatesize set_rotation_running].
  destruct (Z.leb_spec (rotatesize l) (file_size (file_at w i))); [lia|].
  unfold ret. now rewrite set_rotation_running_twice.
Qed.

(** When the live file cannot be examined, [logRotate] returns the error with
    the flag still set. *)
Lemma P_logRotate_stat_error (n : nat) (l : Logger) (w : World) :
  rotate l = true → rotation_running l = false →
  resolve w (filename l) = None →
  Part000.logRotate (S n) l w
  = Ret (set_rotation_running l true, (base l, Some (PathError "stat" (filename l)))) w.
Proof.
  intros Hrot Hrun Hres.
  cbn [Part000.logRotate]. rewrite Hrot, Hrun. cbn [andb negb].
  rewrite (bind_eq _ _ _ _ _ (os_Stat_eq _ _)).
  cbn [filename set_rotation_running]. rewrite Hres. reflexivity.
Qed.

(** [logRotate] of [unnamed/part_000] with fuel 3 or more, on a logger that
    has a writer: it returns, with the settings unchanged, a writer still
    there (open on a file of the world if it was), and the standard streams
    untouched; without error the flag is what it was, with an error it is
    set. *)
Lemma P_logRotate_result (n : nat) (l : Logger) (w : World) :
  is_Some (base l) →
  ∃ l' err w',
    Part000.logRotate (S (S (S n))) l w = Ret (l', (base l', err)) w'
    ∧ same_settings l l' ∧ is_Some (base l')
    ∧ (writer_ok l w → writer_ok l' w')
    ∧ stdout w' = stdout w ∧ stderr w' = stderr w
    ∧ (err = None → rotation_running l' = rotation_running l)
    ∧ (err ≠ None → rotation_running l' = true)
    ∧ (base l' = base l
       ∨ ∃ b', base l' = Some b' ∧ resolve w' (filename l) = Some (fd_ino b')).
Proof.
  intros [b Hb].
  destruct (rotate l && negb (rotation_running l)) eqn:Hguard.
  - apply andb_true_iff in Hguard as [Hrot Hrun]. apply negb_true_iff in Hrun.
    destruct (resolve w (filename l)) as [i|] eqn:Hres.
    + destruct (Z.le_gt_cases (rotatesize l) (file_size (file_at w i))) as [Hsize|Hsize].
      * destruct (P_logRotate_fires n l w b i Hrot Hrun Hb Hres Hsize) as (m' & E & Hm').
        cbv zeta in E. eexists _, None, _. split; [exact E|].
        match type of E with _ = Ret _ (P_traced ?l2 ?a ?b ?c ?w2) =>
          destruct (P_traced_fields l2 a b c w2) as (Hn & Hlen & Hout & Herr) end.
        match type of E with
          _ = Ret _ (P_traced _ _ _ _ (mkWorld _ (inodes (P_traced ?l1 ?a ?b ?c _) ++ _) _ _)) =>
          destruct (P_traced_fields l1 a b c w) as (_ & Hlen1 & _ & _) end.
        split; [unfold same_settings; cbn; auto 10|].
        split; [cbn; eauto|].
        split.
        { intros _. eexists. split; [reflexivity|]. cbn [fd_ino]. rewrite Hlen.
          cbn [inodes]. rewrite length_app, Hlen1. simpl. lia. }
        split; [now rewrite Hout|]. split; [now rewrite Herr|].
        split; [intros _; cbn; now rewrite Hrun|].
        split; [intros Hc; now contradiction Hc|].
        right. eexists. split; [reflexivity|]. cbn [fd_ino].
        apply resolve_Some_nonempty in Hres as [Hne _].
        rewrite resolve_nonempty by exact Hne. rewrite Hn. apply Hm'.
      * eexists l, None, w. rewrite (P_logRotate_below _ l w i) by assumption.
        split; [reflexivity|]. split; [apply same_settings_refl|].
        split; [eauto|]. repeat split; auto; congruence.
    + eexists (set_rotation_running l true), _, w.
      rewrite P_logRotate_stat_error by assumption.
      split; [reflexivity|]. split; [unfold same_settings; cbn; auto 10|].
      split; [cbn; eauto|]. repeat split; auto; congruence.
  - eexists l, None, w. rewrite P_logRotate_guard by assumption.
    split; [reflexivity|]. split; [apply same_settings_refl|].
    split; [eauto|]. repeat split; auto; congruence.
Qed.



(* ===================================================================== *)
(** * Revision [servicelogger.go]: logging calls and rotation *)
(* ===================================================================== *)




Lemma SL_logRotate_guard (n : nat) (l : Logger) (w : World) :
  rotate l && negb (rotation_running l) = false →
  ServiceLogger.logRotate (S n) l w = Ret (l, None) w.
Proof. intros H. cbn [ServiceLogger.logRotate]. now rewrite H. Qed.

Lemma SL_logged_fields (threshold : LogLevel) (tag : string) (l : Logger)
    (function source text : string) (w : World) :
  let w' := SL_logged threshold tag l function source text w in
  names w' = names w ∧ length (inodes w') = length (inodes w)
  ∧ stdout w' = stdout w ++ lookup_lines l (facility_of l source function)
  ∧ stderr w' = stderr w.
Proof.
  unfold SL_logged. cbv zeta. destruct (_ <=? threshold); [|auto].
  destruct (base l); [|auto]. unfold append_chunk. simpl.
  rewrite length_alter. auto.
Qed.

Lemma SL_LogTrace_quiet (n : nat) (l : Logger) (function source text : string) (w : World) :
  rotate l && negb (rotation_running l) = false → is_Some (base l) →
  ServiceLogger.LogTrace (S (S n)) l function source text w
  = Ret tt (SL_logged LL_TRACE "TRACE   " l function source text w).
Proof.
  intros H [b Hb]. cbn [ServiceLogger.LogTrace].
  rewrite (bind_eq _ _ _ _ _ (SL_getFilteredLogLevel _ _ _)).
  unfold SL_logged. cbv zeta. destruct (_ <=? LL_TRACE); [|reflexivity].
  rewrite (bind_eq _ _ _ _ _ (SL_logRotate_guard _ _ _ H)).
  rewrite Hb. reflexivity.
Qed.

(** The rotation of [servicelogger.go] when it fires: the struct it returns
    has [rotation_running] set. *)
Lemma SL_logRotate_fires (n : nat) (l : Logger) (w : World) (b : File) (i : nat) :
  rotate l = true → rotation_running l = false → base l = Some b →
  resolve w (filename l) = Some i → rotatesize l <= file_size (file_at w i) →
  ∃ m',
    let l1 := set_rotation_running l true in
    let w1 := SL_logged LL_TRACE "TRACE   " l1 "logRotate" "servicelogger"
                        "Rotating log, closing logwriter" w in
    let nf := mkFile (length (inodes w)) open_flags in
    let l2 := set_base (set_filehandle l1 (Some nf)) (Some nf) in
    let w2 := mkWorld m' (inodes w1 ++ [mkInode [] open_perm]) (stdout w1) (stderr w) in
    ServiceLogger.logRotate (S (S (S n))) l w
    = Ret (l2, None)
          (SL_logged LL_TRACE "TRACE   " l2 "logRotate" "servicelogger"
                     "Log rotated, reopened logwriter" w2)
    ∧ rotated (filename l) (keep l) (names w) m' i (length (inodes w)).
Proof.
  intros Hrot Hrun Hb Hres Hsize.
  pose (l1 := set_rotation_running l true).
  pose (w1 := SL_logged LL_TRACE "TRACE   " l1 "logRotate" "servicelogger"
                        "Rotating log, closing logwriter" w).
  destruct (SL_logged_fields LL_TRACE "TRACE   " l1 "logRotate" "servicelogger"
              "Rotating log, closing logwriter" w) as (Hn1 & Hlen1 & _ & Herr1).
  fold w1 in Hn1, Hlen1, Herr1.
  assert (resolve w1 (filename l) = Some i) as Hres1
    by (unfold resolve in *; now rewrite Hn1).
  destruct (rotation_files (filename l) (keep l) w1 i Hres1)
    as (m2 & m3 & m' & E2 & E3 & E4 & Hrotated).
  rewrite Hn1, Hlen1, Herr1 in *.
  exists m'. cbv zeta. split; [|exact Hrotated].
  cbn [ServiceLogger.logRotate]. rewrite Hrot, Hrun. cbn [andb negb].
  rewrite (bind_eq _ _ _ _ _ (os_Stat_eq _ _)).
  cbn [filename set_rotation_running]. rewrite Hres.
  cbn [rotatesize set_rotation_running].
  destruct (Z.leb_spec (rotatesize l) (file_size (file_at w i))); [|lia].
  rewrite (bind_eq _ _ _ _ _ (SL_LogTrace_quiet n l1 _ _ _ w
                                (guard_running l1 eq_refl)
                                ltac:(unfold l1; cbn; rewrite Hb; eauto))).
  fold w1. cbn [filename keep set_rotation_running].
  rewrite drop_keep_SL. rewrite Hn1, Herr1.
  rewrite (bind_eq _ _ _ _ _ E2).
  rewrite (bind_eq _ _ _ _ _ E3).
  rewrite (bind_eq _ _ _ _ _ E4).
  unfold bind at 1. unfold ret at 1.
  pose (l2 := set_base (set_filehandle l1 (Some (mkFile (length (inodes w)) open_flags)))
                       (Some (mkFile (length (inodes w)) open_flags))).
  rewrite (bind_eq _ _ _ _ _
             (SL_LogTrace_quiet n l2 _ _ _ _ (guard_running l2 eq_refl)
                                ltac:(cbn; eauto))).
  reflexivity.
Qed.





(* ===================================================================== *)
(** * FATAL *)
(* ===================================================================== *)






(* ===================================================================== *)
(** * Rotation *)
(* ===================================================================== *)

Lemma rotated_outcome (name : string) (keep : Z) (m m' : gmap string nat) (i new : nat) :
  rotated name keep m m' i new → 1 <= keep <= MaxInt64 →
  m' !! name = Some new
  ∧ m' !! generation name 1 = Some i
  ∧ (∀ j, 2 <= j <= keep → m' !! generation name j = m !! generation name (j - 1))
  ∧ (∀ j, ¬ (1 <= j <= keep) → m' !! generation name j = m !! generation name j)
  ∧ (∀ p, p ≠ name → (∀ j, p ≠ generation name j) → m' !! p = m !! p).
Proof.
  intros (H1 & H2 & H3 & H4) Hk. destruct (H4 Hk) as [Ha Hc].
  repeat split; auto.
  intros j Hj. apply Hc; [apply generation_not_live|].
  intros j' Hj' E. apply generation_inj in E. lia.
Qed.

Lemma new_file_traced (l2 : Logger) (a b c : string) (m : gmap string nat)
    (ino : list inode) (out err : list string) :
  base l2 = Some (mkFile (length ino) open_flags) →
  ∃ chunks,
    inodes (P_traced l2 a b c (mkWorld m (ino ++ [mkInode [] open_perm]) out err))
      !! length ino = Some (mkInode chunks open_perm)
    ∧ (length chunks <= 1)%nat.
Proof.
  intros Hb. unfold P_traced. rewrite Hb.
  destruct (_ <=? LL_TRACE).
  - unfold append_chunk. cbn [inodes fd_ino].
    rewrite list_lookup_alter, lookup_app_r, Nat.sub_diag by lia. simpl.
    destruct (decide (length ino = length ino)); [|congruence]. eexists. split; eauto.
  - cbn [inodes]. rewrite lookup_app_r, Nat.sub_diag by lia. simpl. eexists. split; eauto.
Qed.

Lemma new_file_logged (t : LogLevel) (g : string) (l2 : Logger) (a b c : string)
    (m : gmap string nat) (ino : list inode) (out err : list string) :
  base l2 = Some (mkFile (length ino) open_flags) →
  ∃ chunks,
    inodes (SL_logged t g l2 a b c (mkWorld m (ino ++ [mkInode [] open_perm]) out err))
      !! length ino = Some (mkInode chunks open_perm)
    ∧ (length chunks <= 1)%nat.
Proof.
  intros Hb. unfold SL_logged. cbv zeta. rewrite Hb.
  destruct (_ <=? t).
  - unfold append_chunk, with_stdout. cbn [inodes fd_ino].
    rewrite list_lookup_alter, lookup_app_r, Nat.sub_diag by lia. simpl.
    destruct (decide (length ino = length ino)); [|congruence]. eexists. split; eauto.
  - unfold with_stdout. cbn [inodes].
    rewrite lookup_app_r, Nat.sub_diag by lia. simpl. eexists. split; eauto.
Qed.

(** C4, as stated, fails: with [keep = 2] and the generations 1, 2 and 3 on
    disk (what lowering [keep] from 3 to 2 leaves), a completed rotation, in
    either revision, leaves the live file and the three numbered generations
    1, 2 and 3, one more than [keep]; and with [keep = 0], which
    [ApplyNewSettings] accepts, it makes the live file generation 1. *)
Lemma rotation_keeps_older_generations :
  keep (demo_logger 2) = 2
  ∧ (∃ l' r w',
       Part000.logRotate 3 (demo_logger 2) demo_world = Ret (l', (r, None)) w'
       ∧ names w' !! "svc.log" = Some 4%nat
       ∧ names w' !! "svc.log.1" = Some 0%nat
       ∧ names w' !! "svc.log.2" = Some 1%nat
       ∧ names w' !! "svc.log.3" = Some 3%nat)
  ∧ (∃ l' w',
       ServiceLogger.logRotate 3 (demo_logger 2) demo_world = Ret (l', None) w'
       ∧ names w' !! "svc.log" = Some 4%nat
       ∧ names w' !! "svc.log.1" = Some 0%nat
       ∧ names w' !! "svc.log.2" = Some 1%nat
       ∧ names w' !! "svc.log.3" = Some 3%nat)
  ∧ (∃ l' r w',
       Part000.logRotate 3 (demo_logger 0) demo_world = Ret (l', (r, None)) w'
       ∧ names w' !! "svc.log" = Some 4%nat
       ∧ names w' !! "svc.log.1" = Some 0%nat).
Proof.
  split; [reflexivity|]. split; [|split].
  - eexists _, _, _. split; [vm_compute; reflexivity|]. repeat split; vm_compute; reflexivity.
  - eexists _, _. split; [vm_compute; reflexivity|]. repeat split; vm_compute; reflexivity.
  - eexists _, _, _. split; [vm_compute; reflexivity|]. repeat split; vm_compute; reflexivity.
Qed.

(** C4 (amended): when rotation fires (rotation enabled, the flag clear, the
    live file at or above the threshold) with [1 <= keep], [logRotate]
    completes without error in both revisions and leaves [rotation_outcome]:
    the old generation [keep] is gone, each generation [i < keep] has become
    generation [i + 1], the live file has become generation 1, and the live
    path names a new file opened in append-create mode with permission bits
    [0640]; the rotation creates no generation outside [1..keep] and removes
    none, so at most [keep] numbered generations exist afterwards when none
    above [keep] existed before. *)
Theorem logRotate_shift (n : nat) (l : Logger) (w : World) (b : File) (i : nat) :
  rotate l = true → rotation_running l = false → base l = Some b →
  resolve w (filename l) = Some i → rotatesize l <= file_size (file_at w i) →
  1 <= keep l <= MaxInt64 →
  (∃ l' w', Part000.logRotate (S (S (S n))) l w = Ret (l', (base l', None)) w'
            ∧ rotation_outcome l w i l' w')
  ∧ (∃ l' w', ServiceLogger.logRotate (S (S (S n))) l w = Ret (l', None) w'
              ∧ rotation_outcome l w i l' w').
Proof.
  intros Hrot Hrun Hb Hres Hsize Hkeep. split.
  - destruct (P_logRotate_fires n l w b i Hrot Hrun Hb Hres Hsize) as (m' & E & Hm').
    cbv zeta in E. eexists _, _. split; [exact E|].
    destruct (rotated_outcome _ _ _ _ _ _ Hm' Hkeep) as (H1 & H2 & H3 & H4 & H5).
    match type of E with _ = Ret _ (P_traced ?l2 ?a ?b ?c ?w2) =>
      destruct (P_traced_fields l2 a b c w2) as (Hn & _) end.
    match type of E with
      _ = Ret _ (P_traced _ _ _ _ (mkWorld _ (inodes (P_traced ?l1 ?a ?b ?c _) ++ _) _ _)) =>
      destruct (P_traced_fields l1 a b c w) as (_ & Hlen1 & _) end.
    unfold rotation_outcome. rewrite Hn. cbn [names].
    split; [exact H1|]. split.
    { rewrite <- Hlen1. apply new_file_traced. cbn. now rewrite Hlen1. }
    repeat split; auto.
  - destruct (SL_logRotate_fires n l w b i Hrot Hrun Hb Hres Hsize) as (m' & E & Hm').
    cbv zeta in E. eexists _, _. split; [exact E|].
    destruct (rotated_outcome _ _ _ _ _ _ Hm' Hkeep) as (H1 & H2 & H3 & H4 & H5).
    match type of E with _ = Ret _ (SL_logged ?t ?g ?l2 ?a ?b ?c ?w2) =>
      destruct (SL_logged_fields t g l2 a b c w2) as (Hn & _) end.
    match type of E with
      _ = Ret _ (SL_logged _ _ _ _ _ _
                   (mkWorld _ (inodes (SL_logged ?t ?g ?l1 ?a ?b ?c _) ++ _) _ _)) =>
      destruct (SL_logged_fields t g l1 a b c w) as (_ & Hlen1 & _) end.
    unfold rotation_outcome. rewrite Hn. cbn [names].
    split; [exact H1|]. split.
    { rewrite <- Hlen1. apply new_file_logged. cbn. now rewrite Hlen1. }
    repeat split; auto.
Qed.

Lemma logRotate_shift_witness :
  ∃ l' w', Part000.logRotate 3 (demo_logger 3) demo_world = Ret (l', (base l', None)) w'
           ∧ rotation_outcome (demo_logger 3) demo_world 0 l' w'.
Proof.
  apply (logRotate_shift 0 (demo_logger 3) demo_world (mkFile 0 open_flags) 0);
    try reflexivity.
  - vm_compute. discriminate.
  - unfold MaxInt64. simpl. lia.
Defined.


(** ... while [unnamed/part_000] clears it after every check that completes
    without error, so that the next check can rotate again. *)
Lemma P_logRotate_resets_flag (n : nat) (l : Logger) (w : World) :
  is_Some (base l) → rotation_running l = false →
  ∃ l' nb err w', Part000.logRotate (S (S (S n))) l w = Ret (l', (nb, err)) w'
                  ∧ (err = None → rotation_running l' = false).
Proof.
  intros Hb Hrun.
  destruct (P_logRotate_result n l w Hb) as (l' & err & w' & E & _ & _ & _ & _ & _ & Hflag & _).
  eexists _, _, _, _. split; [exact E|]. intros He. rewrite (Hflag He). exact Hrun.
Qed.


(** Two logging calls in a row on the running example: both rotate, in both
    revisions.  The old generation 3 is gone, the old generation 1 has become
    generation 3, the live file of the start generation 2, and the file the
    first call opened generation 1. *)
Lemma second_rotation_example :
  (∃ l' w',
     (let* l := Part000.LogInfo 3 (demo_logger 3) "main" "http" demo_text
      in Part000.LogInfo 3 l "main" "http" demo_text) demo_world = Ret l' w'
     ∧ rotation_running l' = false
     ∧ map (fun p => names w' !! p) ["svc.log"; "svc.log.1"; "svc.log.2"; "svc.log.3"]
       = [Some 5; Some 4; Some 0; Some 1]%nat)
  ∧ (∃ w',
       (ServiceLogger.LogInfo 3 (demo_logger 3) "main" "http" demo_text ;;
        ServiceLogger.LogInfo 3 (demo_logger 3) "main" "http" demo_text) demo_world
       = Ret tt w'
       ∧ map (fun p => names w' !! p) ["svc.log"; "svc.log.1"; "svc.log.2"; "svc.log.3"]
         = [Some 5; Some 4; Some 0; Some 1]%nat).
Proof.
  split.
  - eexists _, _. split; [vm_compute; reflexivity|]. split; vm_compute; reflexivity.
  - eexists. split; vm_compute; reflexivity.
Qed.

(* ===================================================================== *)
(** * Applying new settings *)
(* ===================================================================== *)





(** ** Revision [unnamed/part_000] *)









(** ** Revision [servicelogger.go] *)










